(** * Snapshot sharing and preview resolution of the landing page

    A shallow embedding of [src/pages/index.tsx]:

    - [getStaticProps], the render-time gate that fetches a snapshot from S3
      when the request is in preview mode and classifies storage failures;
    - [Home], the client component: its state cells, the [share] callback with
      its in-flight guard, the promise chain that settles a save request, and
      the dialogs' exit callbacks.

    JavaScript strings are sequences of UTF-16 code units, [JSON.stringify] and
    [JSON.parse] follow ECMA-262 on the values this page exchanges. *)

From Stdlib Require Import NArith ZArith Ascii String Lia.
From stdpp Require Import base option list gmap.

#[local] Set Warnings "-register-all".
#[local] Open Scope N_scope.

(** ** JavaScript strings *)

(** A JavaScript string: its UTF-16 code units. *)
Definition jsstring : Type := list N.

(** The code units of an ASCII literal of the source. *)
Definition js (s : string) : jsstring :=
  N_of_ascii <$> list_ascii_of_string s.

(** ** JSON *)

Module JSON.

(** The values [JSON.parse] builds.  A number is kept as the literal it was
    read from: its IEEE value is never inspected by the page.  An object is
    a finite map from property name to value; a repeated name keeps the last
    value, as [JSON.parse] does. *)
Inductive JSValue : Type :=
| JNull
| JBool (b : bool)
| JNumber (literal : jsstring)
| JString (s : jsstring)
| JArray (elements : list JSValue)
| JObject (properties : gmap jsstring JSValue).

Definition QUOTE : N := 34.       (* the double quote *)
Definition BACKSLASH : N := 92.
Definition SLASH : N := 47.
Definition COMMA : N := 44.
Definition COLON : N := 58.
Definition LBRACKET : N := 91.
Definition RBRACKET : N := 93.
Definition LBRACE : N := 123.
Definition RBRACE : N := 125.
Definition MINUS : N := 45.
Definition PLUS : N := 43.
Definition DOT : N := 46.

(** *** Serialisation (QuoteJSONString, SerializeJSONArray) *)

Definition hex_char (d : N) : N := if d <? 10 then 48 + d else 87 + d.

(** UnicodeEscape: backslash, [u] and four lower-case hexadecimal digits. *)
Definition unicode_escape (c : N) : jsstring :=
  [BACKSLASH; 117;
   hex_char (c / 4096 mod 16); hex_char (c / 256 mod 16);
   hex_char (c / 16 mod 16); hex_char (c mod 16)].

Definition is_high_surrogate (c : N) : bool := (55296 <=? c) && (c <=? 56319).
Definition is_low_surrogate (c : N) : bool := (56320 <=? c) && (c <=? 57343).

(** One code unit that is not half of a surrogate pair. *)
Definition quote_unit (c : N) : jsstring :=
  if c =? 8 then [BACKSLASH; 98]
  else if c =? 9 then [BACKSLASH; 116]
  else if c =? 10 then [BACKSLASH; 110]
  else if c =? 12 then [BACKSLASH; 102]
  else if c =? 13 then [BACKSLASH; 114]
  else if c =? QUOTE then [BACKSLASH; QUOTE]
  else if c =? BACKSLASH then [BACKSLASH; BACKSLASH]
  else if (c <? 32) || is_high_surrogate c || is_low_surrogate c
       then unicode_escape c
  else [c].

(** The string is read by code points: a high surrogate followed by a low
    one is a pair and is copied; a lone surrogate is escaped. *)
Fixpoint quote_units (s : jsstring) : jsstring :=
  match s with
  | [] => []
  | c :: s' =>
      if is_high_surrogate c then
        match s' with
        | d :: s'' =>
            if is_low_surrogate d then c :: d :: quote_units s''
            else quote_unit c ++ quote_units s'
        | [] => quote_unit c
        end
      else quote_unit c ++ quote_units s'
  end.

Definition quote (s : jsstring) : jsstring :=
  QUOTE :: quote_units s ++ [QUOTE].

(** *** Parsing (the JSON grammar of ECMA-404) *)

Definition is_ws (c : N) : bool :=
  (c =? 32) || (c =? 9) || (c =? 10) || (c =? 13).

Fixpoint skip_ws (s : jsstring) : jsstring :=
  match s with
  | c :: r => if is_ws c then skip_ws r else s
  | [] => []
  end.

Definition is_digit (c : N) : bool := (48 <=? c) && (c <=? 57).

Definition hex_digit (c : N) : option N :=
  if is_digit c then Some (c - 48)
  else if (97 <=? c) && (c <=? 102) then Some (c - 87)
  else if (65 <=? c) && (c <=? 70) then Some (c - 55)
  else None.

Definition hex4 (a b c d : N) : option N :=
  a ← hex_digit a; b ← hex_digit b; c ← hex_digit c; d ← hex_digit d;
  Some (a * 4096 + b * 256 + c * 16 + d).

(** The character an escape letter stands for. *)
Definition escape_letter (e : N) : option N :=
  if e =? QUOTE then Some QUOTE
  else if e =? BACKSLASH then Some BACKSLASH
  else if e =? SLASH then Some SLASH
  else if e =? 98 then Some 8
  else if e =? 102 then Some 12
  else if e =? 110 then Some 10
  else if e =? 114 then Some 13
  else if e =? 116 then Some 9
  else None.

(** The characters of a string literal after its opening quote, up to and
    including the closing quote. *)
Fixpoint parse_chars (s : jsstring) : option (jsstring * jsstring) :=
  match s with
  | [] => None
  | c :: r =>
      if c =? QUOTE then Some ([], r)
      else if c =? BACKSLASH then
        match r with
        | [] => None
        | e :: r1 =>
            if e =? 117 then
              match r1 with
              | h1 :: h2 :: h3 :: h4 :: r2 =>
                  u ← hex4 h1 h2 h3 h4;
                  '(str, rest) ← parse_chars r2;
                  Some (u :: str, rest)
              | _ => None
              end
            else
              u ← escape_letter e;
              '(str, rest) ← parse_chars r1;
              Some (u :: str, rest)
        end
      else if c <? 32 then None
      else '(str, rest) ← parse_chars r; Some (c :: str, rest)
  end.

(** One more character [c] in front of the characters read from [tail]. *)
Definition read_after (c : N) (tail : jsstring) : option (jsstring * jsstring) :=
  '(str, rest) ← parse_chars tail; Some (c :: str, rest).

(** A maximal run of digits. *)
Fixpoint take_digits (s : jsstring) : jsstring * jsstring :=
  match s with
  | c :: r =>
      if is_digit c then let '(ds, rest) := take_digits r in (c :: ds, rest)
      else ([], s)
  | [] => ([], [])
  end.

(** int: [0], or a non-zero digit followed by digits. *)
Definition parse_int (s : jsstring) : option (jsstring * jsstring) :=
  match s with
  | c :: r =>
      if c =? 48 then Some ([c], r)
      else if is_digit c then let '(ds, rest) := take_digits r in Some (c :: ds, rest)
      else None
  | [] => None
  end.

(** frac: nothing, or a dot and at least one digit. *)
Definition parse_frac (s : jsstring) : option (jsstring * jsstring) :=
  match s with
  | c :: r =>
      if c =? DOT then
        match take_digits r with
        | ([], _) => None
        | (ds, rest) => Some (c :: ds, rest)
        end
      else Some ([], s)
  | [] => Some ([], [])
  end.

(** exp: nothing, or [e]/[E], an optional sign and at least one digit. *)
Definition parse_exp (s : jsstring) : option (jsstring * jsstring) :=
  match s with
  | c :: r =>
      if (c =? 101) || (c =? 69) then
        let '(sign, r1) :=
          match r with
          | g :: r' => if (g =? PLUS) || (g =? MINUS) then ([g], r') else ([], r)
          | [] => ([], r)
          end in
        match take_digits r1 with
        | ([], _) => None
        | (ds, rest) => Some (c :: sign ++ ds, rest)
        end
      else Some ([], s)
  | [] => Some ([], [])
  end.

Definition parse_number (s : jsstring) : option (jsstring * jsstring) :=
  let '(sign, s1) :=
    match s with
    | c :: r => if c =? MINUS then ([c], r) else ([], s)
    | [] => ([], s)
    end in
  '(i, s2) ← parse_int s1;
  '(f, s3) ← parse_frac s2;
  '(e, s4) ← parse_exp s3;
  Some (sign ++ i ++ f ++ e, s4).

(** [strip_prefix p s] is what follows [p] in [s]. *)
Fixpoint strip_prefix (p s : jsstring) : option jsstring :=
  match p, s with
  | [], _ => Some s
  | a :: p', b :: s' => if a =? b then strip_prefix p' s' else None
  | _ :: _, [] => None
  end.

(** value, elements and members.  Two nested calls never read less than one
    character between them, so twice the length of the text bounds the
    recursion; [fuel] makes that bound structural. *)
Fixpoint parse_value (fuel : nat) (s : jsstring) : option (JSValue * jsstring) :=
  match fuel with
  | O => None
  | S fuel =>
      match skip_ws s with
      | [] => None
      | c :: r =>
          if c =? QUOTE then
            '(str, rest) ← parse_chars r; Some (JString str, rest)
          else if c =? LBRACKET then
            match skip_ws r with
            | d :: r' =>
                if d =? RBRACKET then Some (JArray [], r')
                else '(vs, rest) ← parse_elements fuel r; Some (JArray vs, rest)
            | [] => None
            end
          else if c =? LBRACE then
            match skip_ws r with
            | d :: r' =>
                if d =? RBRACE then Some (JObject ∅, r')
                else '(m, rest) ← parse_members fuel ∅ r; Some (JObject m, rest)
            | [] => None
            end
          else if c =? 116 then
            rest ← strip_prefix (js "true") (c :: r); Some (JBool true, rest)
          else if c =? 102 then
            rest ← strip_prefix (js "false") (c :: r); Some (JBool false, rest)
          else if c =? 110 then
            rest ← strip_prefix (js "null") (c :: r); Some (JNull, rest)
          else
            '(lit, rest) ← parse_number (c :: r); Some (JNumber lit, rest)
      end
  end
with parse_elements (fuel : nat) (s : jsstring) : option (list JSValue * jsstring) :=
  match fuel with
  | O => None
  | S fuel =>
      '(v, r) ← parse_value fuel s;
      match skip_ws r with
      | c :: r' =>
          if c =? COMMA then
            '(vs, rest) ← parse_elements fuel r'; Some (v :: vs, rest)
          else if c =? RBRACKET then Some ([v], r')
          else None
      | [] => None
      end
  end
with parse_members (fuel : nat) (m : gmap jsstring JSValue) (s : jsstring)
  : option (gmap jsstring JSValue * jsstring) :=
  match fuel with
  | O => None
  | S fuel =>
      match skip_ws s with
      | q :: r =>
          if q =? QUOTE then
            '(k, r1) ← parse_chars r;
            match skip_ws r1 with
            | c :: r2 =>
                if c =? COLON then
                  '(v, r3) ← parse_value fuel r2;
                  match skip_ws r3 with
                  | d :: r4 =>
                      if d =? COMMA then parse_members fuel (<[k := v]> m) r4
                      else if d =? RBRACE then Some (<[k := v]> m, r4)
                      else None
                  | [] => None
                  end
                else None
            | [] => None
            end
          else None
      | [] => None
      end
  end.

(** [JSON.parse]: one value, surrounded by white space only; [None] stands
    for the [SyntaxError] it throws. *)
Definition parse (text : jsstring) : option JSValue :=
  match parse_value (2 * length text + 2) text with
  | Some (v, rest) =>
      match skip_ws rest with
      | [] => Some v
      | _ :: _ => None
      end
  | None => None
  end.

End JSON.

Import JSON.

(** ** Field edits *)

Module FieldEdit.

(** One editable region's content, as [share] builds it:
    [{ id, innerText }]. *)
Record t : Type := mk { id : jsstring; innerText : jsstring }.

(** [JSON.stringify] of one edit: the two properties in insertion order. *)
Definition stringify (e : t) : jsstring :=
  [LBRACE] ++ quote (js "id") ++ [COLON] ++ quote (id e) ++ [COMMA]
    ++ quote (js "innerText") ++ [COLON] ++ quote (innerText e) ++ [RBRACE].

(** The object [JSON.parse] rebuilds from it. *)
Definition value (e : t) : JSValue :=
  JObject (<[js "innerText" := JString (innerText e)]>
           (<[js "id" := JString (id e)]> ∅)).

End FieldEdit.

(** Array elements separated by commas. *)
Fixpoint join_elements (l : list jsstring) : jsstring :=
  match l with
  | [] => []
  | [x] => x
  | x :: r => x ++ COMMA :: join_elements r
  end.

(** [JSON.stringify(persistContents)] for [persistContents : FieldEdit[]]. *)
Definition JSON_stringify (edits : list FieldEdit.t) : jsstring :=
  [LBRACKET] ++ join_elements (FieldEdit.stringify <$> edits) ++ [RBRACKET].

(** The array a sequence of edits parses back to. *)
Definition edits_value (edits : list FieldEdit.t) : JSValue :=
  JArray (FieldEdit.value <$> edits).

(** ** Errors *)

(** The values the page catches.  [ServiceError] is what the AWS SDK rejects
    with: [statusCode] is the HTTP status of the response, absent when no
    response arrived. *)
Inductive JSError : Type :=
| ServiceError (code : jsstring) (status : option Z)
| SyntaxError
| TypeError
| Error (message : jsstring).

(** [e.statusCode] ([None] is [undefined]). *)
Definition statusCode (e : JSError) : option Z :=
  match e with
  | ServiceError _ status => status
  | _ => None
  end.

(** ** Server side: [getStaticProps] *)

Record GetObjectRequest : Type :=
  { Bucket : option jsstring; Key : jsstring }.

(** [Body] is the object's content, read as the string [Body.toString()]
    decodes. *)
Record GetObjectOutput : Type := { Body : option jsstring }.

(** A computation of the server: it returns, throws, or awaits
    [s3.getObject(..).promise()] and goes on with what the store answers. *)
Inductive Server (A : Type) : Type :=
| Return (a : A)
| Throw (e : JSError)
| GetObject (req : GetObjectRequest) (k : JSError + GetObjectOutput → Server A).

Arguments Return {A} a.
Arguments Throw {A} e.
Arguments GetObject {A} req k.

Fixpoint bind {A B : Type} (m : Server A) (f : A → Server B) : Server B :=
  match m with
  | Return a => f a
  | Throw e => Throw e
  | GetObject req k => GetObject req (λ r, bind (k r) f)
  end.

(** [try { m } catch (e) { handler e }]. *)
Fixpoint try_catch {A : Type} (m : Server A) (handler : JSError → Server A) : Server A :=
  match m with
  | Return a => Return a
  | Throw e => handler e
  | GetObject req k => GetObject req (λ r, try_catch (k r) handler)
  end.

Notation "x ← 'await' m ; k" := (bind m (λ x, k))
  (at level 20, m at level 100, k at level 200, only parsing, right associativity).

(** [await s3.getObject(req).promise()]: a rejection is thrown at the await. *)
Definition s3_getObject (req : GetObjectRequest) : Server GetObjectOutput :=
  GetObject req (λ r, match r with inl e => Throw e | inr object => Return object end).

(** [object.Body.toString()]. *)
Definition Body_toString (object : GetObjectOutput) : Server jsstring :=
  match Body object with
  | Some text => Return text
  | None => Throw TypeError
  end.

(** [JSON.parse(text)]. *)
Definition JSON_parse (text : jsstring) : Server JSValue :=
  match JSON.parse text with
  | Some v => Return v
  | None => Throw SyntaxError
  end.

(** Runs a computation against a store that answers [respond req] to every
    request; the requests made are returned with the outcome. *)
Fixpoint run {A : Type} (respond : GetObjectRequest → JSError + GetObjectOutput)
    (m : Server A) : list GetObjectRequest * (JSError + A) :=
  match m with
  | Return a => ([], inr a)
  | Throw e => ([], inl e)
  | GetObject req k =>
      let '(reqs, out) := run respond (k (respond req)) in (req :: reqs, out)
  end.

Record PreviewData : Type := { previewData_snapshotId : jsstring }.

(** The part of Next's context the function reads. [previewData] is
    [undefined] ([None]) unless preview mode was entered. *)
Record Context : Type :=
  { preview : bool; previewData : option PreviewData }.

(** The [props] of the result; an absent property is [None]. *)
Record Props : Type :=
  { isPreview : bool;
    snapshotId : option jsstring;
    contents : option JSValue;
    hasError : option bool;
    message : option jsstring }.

Definition not_exist_message : jsstring :=
  js "The requested preview edit does not exist!".

Definition connection_message : jsstring :=
  js "An error has occurred while connecting to S3. Please refresh the page to try again.".

Definition preview_props (snapshotId : jsstring) (contents : JSValue) : Props :=
  {| isPreview := true; snapshotId := Some snapshotId; contents := Some contents;
     hasError := None; message := None |}.

Definition error_props (message : jsstring) : Props :=
  {| isPreview := false; snapshotId := None; contents := None;
     hasError := Some true; message := Some message |}.

Definition normal_props : Props :=
  {| isPreview := false; snapshotId := None; contents := None;
     hasError := None; message := None |}.

(** The body of the [try] block. *)
Definition fetch_preview (AWS_S3_BUCKET : option jsstring) (snapshotId : jsstring)
    : Server Props :=
  object ← await s3_getObject
    {| Bucket := AWS_S3_BUCKET; Key := snapshotId ++ js ".json" |};
  text ← await Body_toString object;
  contents ← await JSON_parse text;
  Return (preview_props snapshotId contents).

(** The [catch] block. *)
Definition preview_failed (e : JSError) : Server Props :=
  Return (error_props
            (if decide (statusCode e = Some 403%Z) then not_exist_message
             else connection_message)).

Definition getStaticProps (AWS_S3_BUCKET : option jsstring) (ctx : Context)
    : Server Props :=
  if preview ctx then
    match previewData ctx with
    | None => Throw TypeError
    | Some data =>
        let snapshotId := previewData_snapshotId data in
        try_catch (fetch_preview AWS_S3_BUCKET snapshotId) preview_failed
    end
  else Return normal_props.

(** The context of a render in preview mode for [snapshotId]. *)
Definition preview_of (snapshotId : jsstring) : Context :=
  {| preview := true;
     previewData := Some {| previewData_snapshotId := snapshotId |} |}.

(** The one request preview resolution makes. *)
Definition snapshot_request (AWS_S3_BUCKET : option jsstring)
    (snapshotId : jsstring) : GetObjectRequest :=
  {| Bucket := AWS_S3_BUCKET; Key := snapshotId ++ js ".json" |}.

(** *** The page [Home] renders from the props *)

Inductive Main : Type :=
| ErrorPage (reason : option jsstring)
| Content (edits : option JSValue).

Record Page : Type := { previewBar : bool; main : Main }.

Definition truthy (b : option bool) : bool := default false b.

(** The props-dependent part of [Home]'s output: the "Preview Mode" bar, and
    either the error page showing [props.message] or the content with
    [edits = props.isPreview ? props.contents : []]. *)
Definition Home_page (props : Props) : Page :=
  {| previewBar := isPreview props || truthy (hasError props);
     main := if truthy (hasError props) then ErrorPage (message props)
             else Content (if isPreview props then contents props
                           else Some (JArray [])) |}.

(** ** The blob store and the save service *)

(** Reaching the store, for one request. *)
Inductive Link : Type := Up | Down (e : JSError).

(** Modelled from the spec: the BlobStore of section 4.4, which is the S3
    service and not code of the repository.  A key that holds no object is
    answered like a denied one, with status 403 (the bucket is private); any
    other failure comes from the link. *)
Definition BlobStore_get (link : Link) (objects : gmap jsstring jsstring)
    (req : GetObjectRequest) : JSError + GetObjectOutput :=
  match link with
  | Down e => inl e
  | Up =>
      match objects !! Key req with
      | Some bytes => inr {| Body := Some bytes |}
      | None => inl (ServiceError (js "AccessDenied") (Some 403%Z))
      end
  end.

(** Modelled from the spec: BlobStore's [put], a whole-object write. *)
Definition BlobStore_put (link : Link) (objects : gmap jsstring jsstring)
    (key bytes : jsstring) : JSError + gmap jsstring jsstring :=
  match link with
  | Down e => inl e
  | Up => inr (<[key := bytes]> objects)
  end.

(** Modelled from the spec: SnapshotService.save of section 4.2, whose
    handler (the /api/save route) is not among the sources.  [newId] is the
    identifier minted for this call; the edits are serialised to a JSON array
    and written under the key [newId ++ ".json"]. *)
Definition SnapshotService_save (link : Link) (objects : gmap jsstring jsstring)
    (newId : jsstring) (edits : list FieldEdit.t)
    : JSError + (jsstring * gmap jsstring jsstring) :=
  match BlobStore_put link objects (newId ++ js ".json") (JSON_stringify edits) with
  | inl e => inl e
  | inr objects' => inr (newId, objects')
  end.

(** PreviewGate.resolve against the store. *)
Definition resolve (link : Link) (objects : gmap jsstring jsstring)
    (AWS_S3_BUCKET : option jsstring) (ctx : Context)
    : list GetObjectRequest * (JSError + Props) :=
  run (BlobStore_get link objects) (getStaticProps AWS_S3_BUCKET ctx).

(** ** Client side: [Home] *)

(** An element matched by [[id] > [contenteditable=true]]: the [id] of its
    parent and its [innerText]. *)
Record Element : Type := { parentNode_id : jsstring; element_innerText : jsstring }.

(** The argument of [self.fetch]. *)
Record Request : Type :=
  { url : jsstring;
    method : jsstring;
    body : jsstring;
    headers : list (jsstring * jsstring) }.

(** The state cells of the component: three [useState] cells, the
    [hasSaveRequest] ref and the [isSharingView] cell behind [setSharing]. *)
Record HomeState : Type :=
  { currentSnapshotId : option jsstring;
    isEdit : bool;
    hasSaveRequest : bool;
    isSharingView : bool;
    currentError : option JSError }.

Definition initial : HomeState :=
  {| currentSnapshotId := None; isEdit := false; hasSaveRequest := false;
     isSharingView := false; currentError := None |}.

Definition setSnapshotId (v : option jsstring) (st : HomeState) : HomeState :=
  {| currentSnapshotId := v; isEdit := isEdit st;
     hasSaveRequest := hasSaveRequest st; isSharingView := isSharingView st;
     currentError := currentError st |}.

Definition clearSnapshot (st : HomeState) : HomeState := setSnapshotId None st.

Definition setEdit (v : bool) (st : HomeState) : HomeState :=
  {| currentSnapshotId := currentSnapshotId st; isEdit := v;
     hasSaveRequest := hasSaveRequest st; isSharingView := isSharingView st;
     currentError := currentError st |}.

Definition toggleEdit (st : HomeState) : HomeState := setEdit (negb (isEdit st)) st.

(** [hasSaveRequest.current = sharing; _setSharing(sharing)]. *)
Definition setSharing (sharing : bool) (st : HomeState) : HomeState :=
  {| currentSnapshotId := currentSnapshotId st; isEdit := isEdit st;
     hasSaveRequest := sharing; isSharingView := sharing;
     currentError := currentError st |}.

Definition setError (v : option JSError) (st : HomeState) : HomeState :=
  {| currentSnapshotId := currentSnapshotId st; isEdit := isEdit st;
     hasSaveRequest := hasSaveRequest st; isSharingView := isSharingView st;
     currentError := v |}.

Definition onClearError (st : HomeState) : HomeState := setError None st.

(** [[].slice.call(els).map(({ parentNode: { id }, innerText }) => ({ id, innerText }))]. *)
Definition persistContents (els : list Element) : list FieldEdit.t :=
  (λ el, FieldEdit.mk (parentNode_id el) (element_innerText el)) <$> els.

Definition save_request (els : list Element) : Request :=
  {| url := js "/api/save";
     method := js "POST";
     body := JSON_stringify (persistContents els);
     headers := [(js "content-type", js "application/json")] |}.

(** The synchronous part of [share]: [els] is what [querySelectorAll]
    returns, in document order; the result is the new state and the requests
    handed to [fetch]. *)
Definition share (els : list Element) (st : HomeState) : HomeState * list Request :=
  if hasSaveRequest st then (st, [])
  else (setSharing true st, [save_request els]).

(** How a promise of the environment settles. *)
Inductive Outcome (A : Type) : Type :=
| Fulfilled (a : A)
| Rejected (e : JSError).

Arguments Fulfilled {A} a.
Arguments Rejected {A} e.

(** What [res.json()] fulfils with: the reply of the save endpoint,
    [{ snapshotId }]. *)
Record SaveReply : Type := { reply_snapshotId : jsstring }.

(** What the page reads of a response: [res.ok], and how [res.json()] and
    [res.text()] settle when they are called. *)
Record Response : Type :=
  { ok : bool; json : Outcome SaveReply; text : Outcome jsstring }.

(** The first [then]: [res.json()] when [res.ok]; otherwise a promise whose
    asynchronous executor rejects it with [new Error(await res.text())].  When
    [res.text()] itself rejects, the executor's own promise rejects and
    [reject] is never called: the promise never settles ([None]). *)
Definition read_reply (fetched : Outcome Response) : option (Outcome SaveReply) :=
  match fetched with
  | Rejected e => Some (Rejected e)
  | Fulfilled res =>
      if ok res then Some (json res)
      else
        match text res with
        | Fulfilled message => Some (Rejected (Error message))
        | Rejected _ => None
        end
  end.

(** The rest of the chain, run when the fetch settles:
    [.then(({ snapshotId }) => setSnapshotId(snapshotId))],
    [.catch((err) => setError(err))], [.finally(() => setSharing(false))]. *)
Definition save_settled (fetched : Outcome Response) (st : HomeState) : HomeState :=
  match read_reply fetched with
  | None => st
  | Some reply =>
      let '(st1, then2) :=
        match reply with
        | Fulfilled r => (setSnapshotId (Some (reply_snapshotId r)) st, Fulfilled ())
        | Rejected e => (st, Rejected e)
        end in
      let st2 :=
        match then2 with
        | Fulfilled _ => st1
        | Rejected err => setError (Some err) st1
        end in
      setSharing false st2
  end.

(** *** The session as a state machine *)

Inductive Event : Type :=
| ToggleEdit                              (* Edit onClick, Snapshot onCancel *)
| Share (els : list Element)              (* Snapshot onShare *)
| SaveSettled (fetched : Outcome Response)  (* the pending fetch settles *)
| ExitShareLink                           (* ShareLinkDialog onExit *)
| ExitError.                              (* ErrorDialog onExit *)

(** The component and the number of save requests sent whose fetch has not
    settled yet. *)
Record Client : Type := { home : HomeState; in_flight : nat }.

Definition start : Client := {| home := initial; in_flight := 0 |}.

(** One event, handled to its end before the next one: the callbacks run on
    the one event thread and the component is rendered again between events.
    A fetch settles only if one is in flight; the user's events are accepted
    in every state. *)
Definition step (c : Client) (ev : Event) : option (Client * list Request) :=
  match ev with
  | ToggleEdit =>
      Some ({| home := toggleEdit (home c); in_flight := in_flight c |}, [])
  | Share els =>
      let '(st, reqs) := share els (home c) in
      Some ({| home := st; in_flight := (in_flight c + length reqs)%nat |}, reqs)
  | SaveSettled fetched =>
      match in_flight c with
      | O => None
      | S n => Some ({| home := save_settled fetched (home c); in_flight := n |}, [])
      end
  | ExitShareLink =>
      Some ({| home := clearSnapshot (home c); in_flight := in_flight c |}, [])
  | ExitError =>
      Some ({| home := onClearError (home c); in_flight := in_flight c |}, [])
  end.

(** A sequence of events: the final client and every request sent. *)
Fixpoint exec (c : Client) (evs : list Event) : option (Client * list Request) :=
  match evs with
  | [] => Some (c, [])
  | ev :: evs' =>
      '(c1, reqs1) ← step c ev;
      '(c2, reqs2) ← exec c1 evs';
      Some (c2, reqs1 ++ reqs2)
  end.

(** The number of steps of a run at which the view enters sharing. *)
Fixpoint entries_into_sharing (c : Client) (evs : list Event) : nat :=
  match evs with
  | [] => 0
  | ev :: evs' =>
      match step c ev with
      | None => 0
      | Some (c1, _) =>
          ((if negb (isSharingView (home c)) && isSharingView (home c1)
            then 1 else 0) + entries_into_sharing c1 evs')%nat
      end
  end.

(** The session states of the design, read off the state cells the way
    [Home] renders them: the error dialog when [currentError] is set, the
    link dialog when [currentSnapshotId] is a non-empty string, the sharing
    indicator, and the edit toolbar when [isEdit]. *)
Inductive SessionState : Type :=
| Viewing
| Editing
| Sharing
| ShowingLink (snapshotId : jsstring)
| ShowingError (error : JSError).

Definition shown_link (st : HomeState) : option jsstring :=
  match currentSnapshotId st with
  | Some (c :: s) => Some (c :: s)
  | _ => None
  end.

Definition session_state (st : HomeState) : SessionState :=
  match currentError st with
  | Some e => ShowingError e
  | None =>
      match shown_link st with
      | Some snapshotId => ShowingLink snapshotId
      | None =>
          if isSharingView st then Sharing
          else if isEdit st then Editing else Viewing
      end
  end.

(** The guard agrees with the view, and a request is in flight only while the
    guard is held. *)
Definition guard_holds (c : Client) : Prop :=
  hasSaveRequest (home c) = isSharingView (home c)
  ∧ (in_flight c ≤ if hasSaveRequest (home c) then 1 else 0)%nat.

(** *** What [Home] renders under the page: the edit controls *)

(** [isEdit ? <Snapshot onCancel onShare isSharing /> : <Edit onClick />]. *)
Inductive Controls : Type :=
| SnapshotControls (isSharing : bool)
| EditControl.

Definition Home_controls (st : HomeState) : Controls :=
  if isEdit st then SnapshotControls (isSharingView st) else EditControl.

(** *** The regions [Content] declares *)

(** The props [Content] gives a [Malleable], its children (the default
    markup of the region) apart. *)
Record MalleableProps : Type :=
  { region_id : jsstring;
    region_as : option jsstring;
    isActive : bool;
    region_edits : option JSValue }.

(** The [Malleable] elements of [Content], in document order. *)
Definition Content_regions (isEdit : bool) (edits : option JSValue)
    : list MalleableProps :=
  let Malleable (id : jsstring) (tag : option jsstring) :=
    {| region_id := id; region_as := tag;
       isActive := isEdit; region_edits := edits |} in
  [ Malleable (js "title") (Some (js "h1"));
    Malleable (js "feature-1-emoji") (Some (js "div"));
    Malleable (js "feature-1-text") (Some (js "h4"));
    Malleable (js "feature-2-emoji") (Some (js "div"));
    Malleable (js "feature-2-text") (Some (js "h4"));
    Malleable (js "feature-3-emoji") (Some (js "div"));
    Malleable (js "feature-3-text") (Some (js "h4"));
    Malleable (js "feature-4-emoji") (Some (js "div"));
    Malleable (js "feature-4-text") (Some (js "h4"));
    Malleable (js "title-2") (Some (js "h2"));
    Malleable (js "title") (Some (js "h2"));
    Malleable (js "explanation-2") None;
    Malleable (js "explanation-3") None;
    Malleable (js "explanation-4") None;
    Malleable (js "explanation-1-inspect") (Some (js "span"));
    Malleable (js "explanation-1-pre-curl") (Some (js "pre"));
    Malleable (js "explanation-2") None;
    Malleable (js "explanation-2") None;
    Malleable (js "explanation-2") None ].

(** *** Counting events *)

(** The number of [ToggleEdit] events of a sequence. *)
Fixpoint toggles (evs : list Event) : nat :=
  match evs with
  | [] => 0
  | ToggleEdit :: evs' => S (toggles evs')
  | _ :: evs' => toggles evs'
  end.

(** The client after the save endpoint refused a save with a body that could
    not be read: the guard is held and nothing is in flight. *)
Definition stuck : Client :=
  {| home := setSharing true (toggleEdit initial); in_flight := 0 |}.

(** ** Sample data *)

Definition title_region : list Element :=
  [{| parentNode_id := js "title"; element_innerText := js "Hello" |}].

(** The save endpoint answers with the identifier [id]. *)
Definition saved_as (id : jsstring) : Outcome Response :=
  Fulfilled {| ok := true;
               json := Fulfilled {| reply_snapshotId := id |};
               text := Rejected TypeError |}.

(** The save endpoint answers with an error status and the body [message]. *)
Definition refused_with (message : jsstring) : Outcome Response :=
  Fulfilled {| ok := false; json := Rejected SyntaxError; text := Fulfilled message |}.

(** The save endpoint answers with an error status and the body cannot be
    read: the connection breaks while [res.text()] reads it. *)
Definition refused_unreadable : Outcome Response :=
  Fulfilled {| ok := false; json := Rejected TypeError; text := Rejected TypeError |}.

Definition title_hello : list FieldEdit.t :=
  [FieldEdit.mk (js "title") (js "Hello")].

(** A failure of the link that carries no HTTP status. *)
Definition networking_error : JSError := ServiceError (js "NetworkingError") None.

(** A store holding one object that is not JSON. *)
Definition broken_store : gmap jsstring jsstring :=
  <[js "s1.json" := js "{oops"]> ∅.

(** * Properties *)

(** ** JSON: what [quote] writes, [parse_chars] reads back *)

Section json_strings.

Lemma hex_digit_hex_char (d : N) : d < 16 → hex_digit (hex_char d) = Some d.
Proof.
  intros Hd. destruct d as [|p]; [reflexivity|].
  do 4 (destruct p as [p|p|]; try reflexivity); lia.
Qed.

Lemma hex4_unicode_digits (c : N) :
  c < 65536 →
  hex4 (hex_char (c / 4096 mod 16)) (hex_char (c / 256 mod 16))
       (hex_char (c / 16 mod 16)) (hex_char (c mod 16)) = Some c.
Proof.
  intros Hc. unfold hex4.
  rewrite !hex_digit_hex_char by (apply N.mod_upper_bound; lia).
  simpl. f_equal.
  zify. Z.to_euclidean_division_equations. lia.
Qed.

Lemma parse_chars_literal (c : N) (tail : jsstring) :
  c ≠ QUOTE → c ≠ BACKSLASH → 32 <= c →
  parse_chars (c :: tail) = read_after c tail.
Proof.
  intros Hq Hb Hc. cbn [parse_chars].
  apply N.eqb_neq in Hq, Hb. rewrite Hq, Hb.
  apply N.ltb_ge in Hc. rewrite Hc. reflexivity.
Qed.

Lemma parse_chars_unicode_escape (c : N) (tail : jsstring) :
  c < 65536 → parse_chars (unicode_escape c ++ tail) = read_after c tail.
Proof.
  intros Hc. unfold unicode_escape. cbn [app parse_chars].
  change (BACKSLASH =? QUOTE) with false.
  change (BACKSLASH =? BACKSLASH) with true.
  change (117 =? 117) with true. cbn match.
  rewrite hex4_unicode_digits by assumption. reflexivity.
Qed.

Lemma surrogate_lt (c : N) :
  is_high_surrogate c || is_low_surrogate c = true → c < 65536.
Proof.
  unfold is_high_surrogate, is_low_surrogate.
  rewrite orb_true_iff, !andb_true_iff, !N.leb_le. lia.
Qed.

Lemma parse_chars_surrogate (c : N) (tail : jsstring) :
  is_high_surrogate c || is_low_surrogate c = true →
  parse_chars (c :: tail) = read_after c tail.
Proof.
  unfold is_high_surrogate, is_low_surrogate.
  rewrite orb_true_iff, !andb_true_iff, !N.leb_le. intros Hc.
  apply parse_chars_literal; unfold QUOTE, BACKSLASH; lia.
Qed.

Lemma parse_chars_quote_unit (c : N) (tail : jsstring) :
  parse_chars (quote_unit c ++ tail) = read_after c tail.
Proof.
  unfold quote_unit.
  repeat (case_match;
          [ match goal with H : (c =? _) = true |- _ =>
              apply N.eqb_eq in H; subst c; reflexivity end | ]).
  repeat match goal with H : (c =? _) = false |- _ => apply N.eqb_neq in H end.
  destruct (c <? 32) eqn:Hc; cbn [orb].
  - apply parse_chars_unicode_escape. apply N.ltb_lt in Hc. lia.
  - apply N.ltb_ge in Hc. case_match.
    + apply parse_chars_unicode_escape, surrogate_lt. assumption.
    + apply parse_chars_literal; assumption.
Qed.

Lemma quote_units_cons (c : N) (s : jsstring) :
  quote_units (c :: s) =
  if is_high_surrogate c then
    match s with
    | d :: s' =>
        if is_low_surrogate d then c :: d :: quote_units s'
        else quote_unit c ++ quote_units s
    | [] => quote_unit c
    end
  else quote_unit c ++ quote_units s.
Proof. reflexivity. Qed.

Lemma parse_chars_quote_units (s tail : jsstring) :
  parse_chars (quote_units s ++ QUOTE :: tail) = Some (s, tail).
Proof.
  revert tail.
  cut ((∀ tail, parse_chars (quote_units s ++ QUOTE :: tail) = Some (s, tail))
       ∧ ∀ c tail, parse_chars (quote_units (c :: s) ++ QUOTE :: tail)
                   = Some (c :: s, tail)); [tauto|].
  induction s as [|d s [IH0 IH1]].
  - split; [reflexivity|].
    intros c tail. cbn [quote_units].
    destruct (is_high_surrogate c);
      rewrite ?app_nil_r, parse_chars_quote_unit; reflexivity.
  - split; [apply IH1|].
    intros c tail. rewrite (quote_units_cons c).
    destruct (is_high_surrogate c) eqn:Hc;
      [destruct (is_low_surrogate d) eqn:Hd|].
    + cbn [app].
      rewrite parse_chars_surrogate by (rewrite Hc; reflexivity).
      unfold read_after.
      rewrite parse_chars_surrogate by (rewrite Hd; apply orb_true_r).
      unfold read_after. rewrite IH0. reflexivity.
    + rewrite <- app_assoc, parse_chars_quote_unit.
      unfold read_after. rewrite IH1. reflexivity.
    + rewrite <- app_assoc, parse_chars_quote_unit.
      unfold read_after. rewrite IH1. reflexivity.
Qed.

End json_strings.

(** ** JSON: an array of edits parses back to the same edits *)

Section json_round_trip.

Lemma parse_value_quote (fuel : nat) (s tail : jsstring) :
  parse_value (S fuel) (quote s ++ tail) = Some (JString s, tail).
Proof.
  unfold quote. rewrite <- app_comm_cons, <- app_assoc.
  change (parse_value (S fuel) (QUOTE :: quote_units s ++ [QUOTE] ++ tail))
    with ('(str, rest) ← parse_chars (quote_units s ++ QUOTE :: tail);
          Some (JString str, rest)).
  rewrite parse_chars_quote_units. reflexivity.
Qed.

Lemma parse_members_property (fuel : nat) (m : gmap jsstring JSValue)
    (k v : jsstring) (c : N) (tail : jsstring) :
  is_ws c = false →
  parse_members (S (S fuel)) m (quote k ++ COLON :: quote v ++ c :: tail) =
  if c =? COMMA then parse_members (S fuel) (<[k := JString v]> m) tail
  else if c =? RBRACE then Some (<[k := JString v]> m, tail)
  else None.
Proof.
  intros Hc. unfold quote at 1. rewrite <- app_comm_cons, <- app_assoc.
  change (parse_members (S (S fuel)) m (QUOTE :: ?r))
    with ('(k, r1) ← parse_chars r;
          match skip_ws r1 with
          | c :: r2 =>
              if c =? COLON then
                '(v, r3) ← parse_value (S fuel) r2;
                match skip_ws r3 with
                | d :: r4 =>
                    if d =? COMMA then parse_members (S fuel) (<[k := v]> m) r4
                    else if d =? RBRACE then Some (<[k := v]> m, r4)
                    else None
                | [] => None
                end
              else None
          | [] => None
          end).
  change ([QUOTE] ++ ?r) with (QUOTE :: r).
  rewrite parse_chars_quote_units. cbn [mbind option_bind].
  change (skip_ws (COLON :: ?r)) with (COLON :: r).
  change (COLON =? COLON) with true. cbn match.
  rewrite parse_value_quote. cbn [mbind option_bind skip_ws].
  rewrite Hc. reflexivity.
Qed.

Lemma parse_value_FieldEdit (fuel : nat) (e : FieldEdit.t) (tail : jsstring) :
  parse_value (4 + fuel) (FieldEdit.stringify e ++ tail)
  = Some (FieldEdit.value e, tail).
Proof.
  unfold FieldEdit.stringify. rewrite <- !app_assoc. cbn [app].
  change (parse_value (4 + fuel) (LBRACE :: quote ?k ++ ?r))
    with ('(m, rest) ← parse_members (S (S (S fuel))) ∅ (quote k ++ r);
          Some (JObject m, rest)).
  rewrite (parse_members_property _ _ _ _ COMMA) by reflexivity.
  change (COMMA =? COMMA) with true. cbn match.
  rewrite (parse_members_property _ _ _ _ RBRACE) by reflexivity.
  reflexivity.
Qed.

Lemma parse_elements_FieldEdits (fuel : nat) (e : FieldEdit.t)
    (edits : list FieldEdit.t) (tail : jsstring) :
  parse_elements (5 + length edits + fuel)
    (join_elements (FieldEdit.stringify <$> e :: edits) ++ RBRACKET :: tail)
  = Some (FieldEdit.value <$> e :: edits, tail).
Proof.
  revert e. induction edits as [|e' edits IH]; intros e.
  - cbn [fmap list_fmap join_elements length].
    change (parse_elements (5 + 0 + fuel) ?s)
      with ('(v, r) ← parse_value (4 + fuel) s;
            match skip_ws r with
            | c :: r' =>
                if c =? COMMA then
                  '(vs, rest) ← parse_elements (4 + fuel) r'; Some (v :: vs, rest)
                else if c =? RBRACKET then Some ([v], r')
                else None
            | [] => None
            end).
    rewrite parse_value_FieldEdit. reflexivity.
  - change (join_elements (FieldEdit.stringify <$> e :: e' :: edits))
      with (FieldEdit.stringify e
              ++ COMMA :: join_elements (FieldEdit.stringify <$> e' :: edits)).
    rewrite <- app_assoc, <- app_comm_cons.
    change (parse_elements (5 + length (e' :: edits) + fuel) ?s)
      with ('(v, r) ← parse_value (4 + (1 + length edits + fuel)) s;
            match skip_ws r with
            | c :: r' =>
                if c =? COMMA then
                  '(vs, rest) ← parse_elements (5 + length edits + fuel) r';
                  Some (v :: vs, rest)
                else if c =? RBRACKET then Some ([v], r')
                else None
            | [] => None
            end).
    rewrite parse_value_FieldEdit. cbn [mbind option_bind skip_ws].
    change (is_ws COMMA) with false. change (COMMA =? COMMA) with true.
    cbn match. rewrite IH. reflexivity.
Qed.

Lemma FieldEdit_stringify_length (e : FieldEdit.t) :
  (2 ≤ length (FieldEdit.stringify e))%nat.
Proof.
  unfold FieldEdit.stringify. rewrite !length_app. cbn [length]. lia.
Qed.

Lemma join_elements_length (edits : list FieldEdit.t) :
  (length edits ≤ length (join_elements (FieldEdit.stringify <$> edits)))%nat.
Proof.
  induction edits as [|e [|e' edits] IH].
  - reflexivity.
  - pose proof (FieldEdit_stringify_length e).
    cbn [fmap list_fmap join_elements length]. lia.
  - change (join_elements (FieldEdit.stringify <$> e :: e' :: edits))
      with (FieldEdit.stringify e
              ++ COMMA :: join_elements (FieldEdit.stringify <$> e' :: edits)).
    rewrite length_app. cbn [length] in *. lia.
Qed.

(** [JSON.parse(JSON.stringify(edits))] is the array of the edits. *)
Lemma parse_JSON_stringify (edits : list FieldEdit.t) :
  JSON.parse (JSON_stringify edits) = Some (edits_value edits).
Proof.
  destruct edits as [|e edits]; [reflexivity|].
  unfold JSON.parse, JSON_stringify, edits_value.
  pose proof (join_elements_length (e :: edits)) as Hlen.
  set (items := join_elements (FieldEdit.stringify <$> e :: edits)) in *.
  rewrite !length_app. cbn [length] in *.
  replace (2 * (1 + (length items + 1)) + 2)%nat
    with (S (5 + length edits + (2 * length items - length edits)))%nat by lia.
  assert (∃ c r, FieldEdit.stringify e = LBRACE :: c :: r) as (c & r & He)
    by (do 2 eexists; reflexivity).
  assert (items = LBRACE :: tl items) as Hitems.
  { subst items. destruct edits; cbn [fmap list_fmap join_elements];
      rewrite He; reflexivity. }
  change (parse_value (S ?f) ([LBRACKET] ++ ?s))
    with (match skip_ws s with
          | d :: r' =>
              if d =? RBRACKET then Some (JArray [], r')
              else '(vs, rest) ← parse_elements f s; Some (JArray vs, rest)
          | [] => None
          end).
  rewrite Hitems at 1. cbn [app skip_ws].
  change (is_ws LBRACE) with false. change (LBRACE =? RBRACKET) with false.
  cbn match. subst items.
  rewrite (parse_elements_FieldEdits _ e edits []). reflexivity.
Qed.

End json_round_trip.

(** ** JSON: the fuel of [parse] is enough *)

Section json_fuel.

Lemma skip_ws_length (s : jsstring) : (length (skip_ws s) ≤ length s)%nat.
Proof.
  induction s as [|c s IH]; [reflexivity|].
  cbn [skip_ws]. destruct (is_ws c); cbn [length]; lia.
Qed.

Lemma parse_chars_length (s str rest : jsstring) :
  parse_chars s = Some (str, rest) → (length rest < length s)%nat.
Proof.
  remember (length s) as n eqn:Hn. revert s str rest Hn.
  induction n as [n IH] using lt_wf_ind. intros s str rest Hn.
  destruct s as [|c r]; [discriminate|]. cbn [parse_chars].
  destruct (c =? QUOTE); [intros [= <- <-]; cbn [length] in *; lia|].
  destruct (c =? BACKSLASH).
  - destruct r as [|e r1]; [discriminate|].
    destruct (e =? 117).
    + destruct r1 as [|h1 [|h2 [|h3 [|h4 r2]]]]; try discriminate.
      destruct (hex4 h1 h2 h3 h4); [|discriminate]. cbn [mbind option_bind].
      destruct (parse_chars r2) as [[str' rest']|] eqn:Hr; [|discriminate].
      intros [= <- <-]. cbn [length] in *.
      specialize (IH (length r2) ltac:(lia) r2 _ _ eq_refl Hr). lia.
    + destruct (escape_letter e); [|discriminate]. cbn [mbind option_bind].
      destruct (parse_chars r1) as [[str' rest']|] eqn:Hr; [|discriminate].
      intros [= <- <-]. cbn [length] in *.
      specialize (IH (length r1) ltac:(lia) r1 _ _ eq_refl Hr). lia.
  - destruct (c <? 32); [discriminate|].
    destruct (parse_chars r) as [[str' rest']|] eqn:Hr; [|discriminate].
    intros [= <- <-]. cbn [length] in *.
    specialize (IH (length r) ltac:(lia) r _ _ eq_refl Hr). lia.
Qed.

Lemma take_digits_length (s ds rest : jsstring) :
  take_digits s = (ds, rest) → (length rest ≤ length s)%nat.
Proof.
  revert ds rest. induction s as [|c s IH]; intros ds rest.
  - intros [= <- <-]. reflexivity.
  - cbn [take_digits]. destruct (is_digit c).
    + destruct (take_digits s) as [ds' rest'] eqn:Hs. intros [= <- <-].
      specialize (IH _ _ eq_refl). cbn [length]. lia.
    + intros [= <- <-]. reflexivity.
Qed.

Lemma parse_number_length (s lit rest : jsstring) :
  parse_number s = Some (lit, rest) → (length rest < length s)%nat.
Proof.
  unfold parse_number.
  assert (∀ s1 i s2, parse_int s1 = Some (i, s2) → (length s2 < length s1)%nat) as Hint.
  { intros [|c r] i s2; [discriminate|]. cbn [parse_int].
    destruct (c =? 48); [intros [= <- <-]; cbn [length]; lia|].
    destruct (is_digit c); [|discriminate].
    destruct (take_digits r) as [ds rest'] eqn:Hd. intros [= <- <-].
    apply take_digits_length in Hd. cbn [length]. lia. }
  assert (∀ s2 f s3, parse_frac s2 = Some (f, s3) → (length s3 ≤ length s2)%nat) as Hfrac.
  { intros [|c r] f s3; [intros [= <- <-]; reflexivity|]. cbn [parse_frac].
    destruct (c =? DOT); [|intros [= <- <-]; reflexivity].
    destruct (take_digits r) as [[|d ds] rest'] eqn:Hd; [discriminate|].
    intros [= <- <-]. apply take_digits_length in Hd. cbn [length]. lia. }
  assert (∀ s3 e s4, parse_exp s3 = Some (e, s4) → (length s4 ≤ length s3)%nat) as Hexp.
  { intros [|c r] e s4; [intros [= <- <-]; reflexivity|]. cbn [parse_exp].
    destruct ((c =? 101) || (c =? 69)); [|intros [= <- <-]; reflexivity].
    destruct r as [|g r'].
    - cbn [take_digits]. discriminate.
    - destruct ((g =? PLUS) || (g =? MINUS)).
      + destruct (take_digits r') as [[|d ds] rest'] eqn:Hd; [discriminate|].
        intros [= <- <-]. apply take_digits_length in Hd. cbn [length]. lia.
      + destruct (take_digits (g :: r')) as [[|d ds] rest'] eqn:Hd; [discriminate|].
        intros [= <- <-]. apply take_digits_length in Hd. cbn [length] in *. lia. }
  set (signed := match s with
                 | c :: r => if c =? MINUS then ([c], r) else ([], s)
                 | [] => ([], s)
                 end).
  assert (length signed.2 ≤ length s)%nat as Hsign.
  { subst signed. destruct s as [|c r]; [reflexivity|].
    destruct (c =? MINUS); cbn [snd length]; lia. }
  destruct signed as [sign s1]. cbn [snd] in Hsign.
  destruct (parse_int s1) as [[i s2]|] eqn:Hi; [|discriminate]. cbn [mbind option_bind].
  destruct (parse_frac s2) as [[f s3]|] eqn:Hf; [|discriminate]. cbn [mbind option_bind].
  destruct (parse_exp s3) as [[e s4]|] eqn:He; [|discriminate]. cbn [mbind option_bind].
  intros [= <- <-].
  apply Hint in Hi. apply Hfrac in Hf. apply Hexp in He. lia.
Qed.

Lemma strip_prefix_length (p s rest : jsstring) :
  strip_prefix p s = Some rest → length s = (length p + length rest)%nat.
Proof.
  revert s. induction p as [|a p IH]; intros [|b s]; cbn [strip_prefix];
    try discriminate; try (intros [= <-]; reflexivity).
  destruct (a =? b); [|discriminate]. intros H%IH. cbn [length]. lia.
Qed.

Lemma parse_value_S (fuel : nat) (s : jsstring) :
  parse_value (S fuel) s =
  match skip_ws s with
  | [] => None
  | c :: r =>
      if c =? QUOTE then
        '(str, rest) ← parse_chars r; Some (JString str, rest)
      else if c =? LBRACKET then
        match skip_ws r with
        | d :: r' =>
            if d =? RBRACKET then Some (JArray [], r')
            else '(vs, rest) ← parse_elements fuel r; Some (JArray vs, rest)
        | [] => None
        end
      else if c =? LBRACE then
        match skip_ws r with
        | d :: r' =>
            if d =? RBRACE then Some (JObject ∅, r')
            else '(m, rest) ← parse_members fuel ∅ r; Some (JObject m, rest)
        | [] => None
        end
      else if c =? 116 then
        rest ← strip_prefix (js "true") (c :: r); Some (JBool true, rest)
      else if c =? 102 then
        rest ← strip_prefix (js "false") (c :: r); Some (JBool false, rest)
      else if c =? 110 then
        rest ← strip_prefix (js "null") (c :: r); Some (JNull, rest)
      else
        '(lit, rest) ← parse_number (c :: r); Some (JNumber lit, rest)
  end.
Proof. reflexivity. Qed.

Lemma parse_elements_S (fuel : nat) (s : jsstring) :
  parse_elements (S fuel) s =
  '(v, r) ← parse_value fuel s;
  match skip_ws r with
  | c :: r' =>
      if c =? COMMA then
        '(vs, rest) ← parse_elements fuel r'; Some (v :: vs, rest)
      else if c =? RBRACKET then Some ([v], r')
      else None
  | [] => None
  end.
Proof. reflexivity. Qed.

Lemma parse_members_S (fuel : nat) (m : gmap jsstring JSValue) (s : jsstring) :
  parse_members (S fuel) m s =
  match skip_ws s with
  | q :: r =>
      if q =? QUOTE then
        '(k, r1) ← parse_chars r;
        match skip_ws r1 with
        | c :: r2 =>
            if c =? COLON then
              '(v, r3) ← parse_value fuel r2;
              match skip_ws r3 with
              | d :: r4 =>
                  if d =? COMMA then parse_members fuel (<[k := v]> m) r4
                  else if d =? RBRACE then Some (<[k := v]> m, r4)
                  else None
              | [] => None
              end
            else None
        | [] => None
        end
      else None
  | [] => None
  end.
Proof. reflexivity. Qed.

(** What succeeds with some fuel succeeds with any fuel that is twice the
    number of characters read. *)
Lemma parse_fuel (fuel : nat) :
  (∀ s v rest, parse_value fuel s = Some (v, rest) →
     (length rest < length s)%nat
     ∧ ∀ fuel', (2 * length s ≤ fuel' + 1 + 2 * length rest)%nat →
                parse_value fuel' s = Some (v, rest))
  ∧ (∀ s vs rest, parse_elements fuel s = Some (vs, rest) →
       (length rest + 2 ≤ length s)%nat
       ∧ ∀ fuel', (2 * length s ≤ fuel' + 2 + 2 * length rest)%nat →
                  parse_elements fuel' s = Some (vs, rest))
  ∧ (∀ m s m' rest, parse_members fuel m s = Some (m', rest) →
       (length rest + 2 ≤ length s)%nat
       ∧ ∀ fuel', (2 * length s ≤ fuel' + 2 + 2 * length rest)%nat →
                  parse_members fuel' m s = Some (m', rest)).
Proof.
  induction fuel as [|fuel (IHv & IHe & IHm)]; [repeat split; discriminate|].
  split; [|split].
  - intros s v rest. rewrite parse_value_S.
    pose proof (skip_ws_length s) as Hs.
    destruct (skip_ws s) as [|c r] eqn:Es; [discriminate|]. cbn [length] in Hs.
    destruct (c =? QUOTE) eqn:Eq.
    { destruct (parse_chars r) as [[str rest']|] eqn:Hr; [|discriminate].
      intros [= <- <-]. pose proof (parse_chars_length _ _ _ Hr).
      split; [lia|]. intros [|fuel'] Hf; [lia|].
      rewrite parse_value_S, Es, Eq, Hr. reflexivity. }
    destruct (c =? LBRACKET) eqn:Eb.
    { pose proof (skip_ws_length r) as Hr.
      destruct (skip_ws r) as [|d r'] eqn:Er; [discriminate|]. cbn [length] in Hr.
      destruct (d =? RBRACKET) eqn:Ed.
      - intros [= <- <-]. split; [lia|]. intros [|fuel'] Hf; [lia|].
        rewrite parse_value_S, Es, Eq, Eb, Er, Ed. reflexivity.
      - destruct (parse_elements fuel r) as [[vs rest']|] eqn:He; [|discriminate].
        intros [= <- <-]. destruct (IHe _ _ _ He) as [Hl Hfuel].
        split; [lia|]. intros [|fuel'] Hf; [lia|].
        rewrite parse_value_S, Es, Eq, Eb, Er, Ed, (Hfuel fuel') by lia.
        reflexivity. }
    destruct (c =? LBRACE) eqn:Eo.
    { pose proof (skip_ws_length r) as Hr.
      destruct (skip_ws r) as [|d r'] eqn:Er; [discriminate|]. cbn [length] in Hr.
      destruct (d =? RBRACE) eqn:Ed.
      - intros [= <- <-]. split; [lia|]. intros [|fuel'] Hf; [lia|].
        rewrite parse_value_S, Es, Eq, Eb, Eo, Er, Ed. reflexivity.
      - destruct (parse_members fuel ∅ r) as [[m rest']|] eqn:Hm; [|discriminate].
        intros [= <- <-]. destruct (IHm _ _ _ _ Hm) as [Hl Hfuel].
        split; [lia|]. intros [|fuel'] Hf; [lia|].
        rewrite parse_value_S, Es, Eq, Eb, Eo, Er, Ed, (Hfuel fuel') by lia.
        reflexivity. }
    intros Hscalar.
    assert (length rest < length s)%nat as Hl.
    { destruct (c =? 116).
      { destruct (strip_prefix (js "true") (c :: r)) as [rest'|] eqn:Hp; [|discriminate].
        injection Hscalar as _ <-. apply strip_prefix_length in Hp. simpl in Hp. lia. }
      destruct (c =? 102).
      { destruct (strip_prefix (js "false") (c :: r)) as [rest'|] eqn:Hp; [|discriminate].
        injection Hscalar as _ <-. apply strip_prefix_length in Hp. simpl in Hp. lia. }
      destruct (c =? 110).
      { destruct (strip_prefix (js "null") (c :: r)) as [rest'|] eqn:Hp; [|discriminate].
        injection Hscalar as _ <-. apply strip_prefix_length in Hp. simpl in Hp. lia. }
      destruct (parse_number (c :: r)) as [[lit rest']|] eqn:Hn; [|discriminate].
      injection Hscalar as _ <-. apply parse_number_length in Hn.
      cbn [length] in Hn. lia. }
    split; [exact Hl|]. intros [|fuel'] Hf; [lia|].
    rewrite parse_value_S, Es, Eq, Eb, Eo. exact Hscalar.
  - intros s vs rest. rewrite parse_elements_S.
    destruct (parse_value fuel s) as [[v r]|] eqn:Hv; [|discriminate].
    cbn [mbind option_bind]. destruct (IHv _ _ _ Hv) as [Hl Hfuel].
    pose proof (skip_ws_length r) as Hr.
    destruct (skip_ws r) as [|c r'] eqn:Er; [discriminate|]. cbn [length] in Hr.
    destruct (c =? COMMA) eqn:Ec.
    + destruct (parse_elements fuel r') as [[vs' rest']|] eqn:He; [|discriminate].
      intros [= <- <-]. destruct (IHe _ _ _ He) as [Hl' Hfuel'].
      split; [lia|]. intros [|fuel'] Hf; [lia|].
      rewrite parse_elements_S, (Hfuel fuel') by lia. cbn [mbind option_bind].
      rewrite Er, Ec, (Hfuel' fuel') by lia. reflexivity.
    + destruct (c =? RBRACKET) eqn:Ed; [|discriminate].
      intros [= <- <-]. split; [lia|]. intros [|fuel'] Hf; [lia|].
      rewrite parse_elements_S, (Hfuel fuel') by lia. cbn [mbind option_bind].
      rewrite Er, Ec, Ed. reflexivity.
  - intros m s m' rest. rewrite parse_members_S.
    pose proof (skip_ws_length s) as Hs.
    destruct (skip_ws s) as [|q r] eqn:Es; [discriminate|]. cbn [length] in Hs.
    destruct (q =? QUOTE) eqn:Eq; [|discriminate].
    destruct (parse_chars r) as [[k r1]|] eqn:Hk; [|discriminate].
    cbn [mbind option_bind]. pose proof (parse_chars_length _ _ _ Hk) as Hr1.
    pose proof (skip_ws_length r1) as Hr2.
    destruct (skip_ws r1) as [|c r2] eqn:Er1; [discriminate|]. cbn [length] in Hr2.
    destruct (c =? COLON) eqn:Ec; [|discriminate].
    destruct (parse_value fuel r2) as [[v r3]|] eqn:Hv; [|discriminate].
    cbn [mbind option_bind]. destruct (IHv _ _ _ Hv) as [Hl Hfuel].
    pose proof (skip_ws_length r3) as Hr4.
    destruct (skip_ws r3) as [|d r4] eqn:Er3; [discriminate|]. cbn [length] in Hr4.
    destruct (d =? COMMA) eqn:Ed.
    + intros Hm. destruct (IHm _ _ _ _ Hm) as [Hl' Hfuel'].
      split; [lia|]. intros [|fuel'] Hf; [lia|].
      rewrite parse_members_S, Es, Eq, Hk. cbn [mbind option_bind].
      rewrite Er1, Ec, (Hfuel fuel') by lia. cbn [mbind option_bind].
      rewrite Er3, Ed. apply Hfuel'. lia.
    + destruct (d =? RBRACE) eqn:Ee; [|discriminate].
      intros [= <- <-]. split; [lia|]. intros [|fuel'] Hf; [lia|].
      rewrite parse_members_S, Es, Eq, Hk. cbn [mbind option_bind].
      rewrite Er1, Ec, (Hfuel fuel') by lia. cbn [mbind option_bind].
      rewrite Er3, Ed, Ee. reflexivity.
Qed.

(** X2. A text that some fuel parses is parsed by [parse]: running out of
    fuel never turns a JSON text into a [SyntaxError]. *)
Theorem parse_complete (fuel : nat) (text : jsstring) (v : JSValue) (rest : jsstring) :
  parse_value fuel text = Some (v, rest) → skip_ws rest = [] →
  JSON.parse text = Some v.
Proof.
  intros Hv Hrest. unfold JSON.parse.
  destruct (parse_fuel fuel) as [Hfuel _].
  destruct (Hfuel _ _ _ Hv) as [_ Hany].
  rewrite (Hany (2 * length text + 2)%nat) by lia. rewrite Hrest. reflexivity.
Qed.

Lemma parse_complete_array_of_seven :
  (parse_value 3 (js "[7]") = Some (JArray [JNumber (js "7")], [])
   ∧ skip_ws [] = [])
  ∧ JSON.parse (js "[7]") = Some (JArray [JNumber (js "7")]).
Proof.
  split; [split; reflexivity|].
  apply (parse_complete 3 (js "[7]") (JArray [JNumber (js "7")]) []); reflexivity.
Defined.

End json_fuel.

(** ** Preview resolution *)

Section preview_resolution.

Variable respond : GetObjectRequest → JSError + GetObjectOutput.
Variable AWS_S3_BUCKET : option jsstring.

(** A handler that makes no request adds none: the outcome of the guarded
    block is returned as it is, or replaced by what the handler returns. *)
Lemma run_try_catch {A : Type} (m : Server A) (handler : JSError → A) :
  run respond (try_catch m (λ e, Return (handler e))) =
  match run respond m with
  | (reqs, inl e) => (reqs, inr (handler e))
  | (reqs, inr a) => (reqs, inr a)
  end.
Proof.
  induction m as [a|e|req k IH]; [reflexivity..|].
  cbn [try_catch run]. rewrite IH.
  destruct (run respond (k (respond req))) as [reqs [e|a]]; reflexivity.
Qed.

Lemma run_getStaticProps_preview (snapshotId : jsstring) :
  run respond (getStaticProps AWS_S3_BUCKET (preview_of snapshotId)) =
  match run respond (fetch_preview AWS_S3_BUCKET snapshotId) with
  | (reqs, inl e) =>
      (reqs, inr (error_props
                    (if decide (statusCode e = Some 403%Z)
                     then not_exist_message else connection_message)))
  | (reqs, inr props) => (reqs, inr props)
  end.
Proof. apply (run_try_catch (fetch_preview _ _)). Qed.

(** The guarded block asks for [snapshotId ++ ".json"] once and throws
    what the store rejects with. *)
Lemma run_fetch_preview_rejected (snapshotId : jsstring) (e : JSError) :
  respond (snapshot_request AWS_S3_BUCKET snapshotId) = inl e →
  run respond (fetch_preview AWS_S3_BUCKET snapshotId)
  = ([snapshot_request AWS_S3_BUCKET snapshotId], inl e).
Proof.
  intros He. unfold fetch_preview, s3_getObject. cbn [bind run].
  fold (snapshot_request AWS_S3_BUCKET snapshotId). rewrite He. reflexivity.
Qed.

(** When the store answers with a body, the block returns what the body
    parses to and throws a [SyntaxError] when it does not parse. *)
Lemma run_fetch_preview_body (snapshotId text : jsstring) :
  respond (snapshot_request AWS_S3_BUCKET snapshotId) = inr {| Body := Some text |} →
  run respond (fetch_preview AWS_S3_BUCKET snapshotId)
  = ([snapshot_request AWS_S3_BUCKET snapshotId],
     match JSON.parse text with
     | Some contents => inr (preview_props snapshotId contents)
     | None => inl SyntaxError
     end).
Proof.
  intros Hr. unfold fetch_preview, s3_getObject. cbn [bind run].
  fold (snapshot_request AWS_S3_BUCKET snapshotId). rewrite Hr.
  unfold Body_toString, JSON_parse. cbn [Body bind].
  destruct (JSON.parse text); reflexivity.
Qed.

End preview_resolution.

(** Fetch succeeds and the body parses: the decision is the preview of what
    the body parses to. *)
Lemma resolve_parsed_body (respond : GetObjectRequest → JSError + GetObjectOutput)
    (bucket : option jsstring) (snapshotId text : jsstring) (contents : JSValue) :
  respond (snapshot_request bucket snapshotId) = inr {| Body := Some text |} →
  JSON.parse text = Some contents →
  run respond (getStaticProps bucket (preview_of snapshotId))
  = ([snapshot_request bucket snapshotId], inr (preview_props snapshotId contents)).
Proof.
  intros Hr Hp. rewrite run_getStaticProps_preview.
  rewrite (run_fetch_preview_body _ _ _ _ Hr), Hp. reflexivity.
Qed.

(** C1. Round trip: when [SnapshotService.save] stored [edits] and returned
    [id], resolving the preview of [id] against the resulting store, with the
    store reachable, asks for the key [id ++ ".json"] once and yields the
    preview props whose contents are exactly the saved edits. *)
Theorem save_then_resolve_round_trip (link : Link)
    (objects objects' : gmap jsstring jsstring) (newId id : jsstring)
    (edits : list FieldEdit.t) (bucket : option jsstring) :
  SnapshotService_save link objects newId edits = inr (id, objects') →
  resolve Up objects' bucket (preview_of id)
  = ([{| Bucket := bucket; Key := id ++ js ".json" |}],
     inr {| isPreview := true; snapshotId := Some id;
            contents := Some (edits_value edits);
            hasError := None; message := None |}).
Proof.
  unfold SnapshotService_save, BlobStore_put.
  destruct link as [|e]; [|discriminate]. intros [= <- <-].
  apply (resolve_parsed_body _ _ _ (JSON_stringify edits)).
  - unfold BlobStore_get, snapshot_request. cbn [Key].
    rewrite lookup_insert_eq. reflexivity.
  - apply parse_JSON_stringify.
Qed.

Lemma save_then_resolve_title_hello :
  SnapshotService_save Up ∅ (js "s1") title_hello
  = inr (js "s1", <[js "s1.json" := JSON_stringify title_hello]> ∅)
  ∧ resolve Up (<[js "s1.json" := JSON_stringify title_hello]> ∅) None
      (preview_of (js "s1"))
    = ([{| Bucket := None; Key := js "s1.json" |}],
       inr {| isPreview := true; snapshotId := Some (js "s1");
              contents := Some (edits_value title_hello);
              hasError := None; message := None |}).
Proof.
  split; [reflexivity|].
  apply (save_then_resolve_round_trip Up ∅ _ (js "s1") (js "s1") title_hello None).
  reflexivity.
Defined.

(** C2, as the code has it. A fetch rejected with status code 403 (object
    missing and access denied alike) yields the error props with the message
    "The requested preview edit does not exist!". *)
Theorem not_accessible_yields_not_exist_error
    (respond : GetObjectRequest → JSError + GetObjectOutput)
    (bucket : option jsstring) (snapshotId : jsstring) (e : JSError) :
  respond (snapshot_request bucket snapshotId) = inl e →
  statusCode e = Some 403%Z →
  run respond (getStaticProps bucket (preview_of snapshotId))
  = ([snapshot_request bucket snapshotId],
     inr (error_props (js "The requested preview edit does not exist!"))).
Proof.
  intros Hr He. rewrite run_getStaticProps_preview.
  rewrite (run_fetch_preview_rejected _ _ _ _ Hr).
  rewrite decide_True by assumption. reflexivity.
Qed.

(** The snapshot that was never saved: the empty store answers 403. *)
Lemma never_saved_yields_not_exist_error :
  BlobStore_get Up ∅ (snapshot_request None (js "never-saved"))
  = inl (ServiceError (js "AccessDenied") (Some 403%Z))
  ∧ statusCode (ServiceError (js "AccessDenied") (Some 403%Z)) = Some 403%Z
  ∧ resolve Up ∅ None (preview_of (js "never-saved"))
    = ([snapshot_request None (js "never-saved")],
       inr (error_props (js "The requested preview edit does not exist!"))).
Proof.
  split; [reflexivity|]. split; [reflexivity|].
  apply (not_accessible_yields_not_exist_error (BlobStore_get Up ∅) None
           (js "never-saved") (ServiceError (js "AccessDenied") (Some 403%Z)));
    reflexivity.
Defined.

(** C2 as stated fails on the text of the message: the never-saved snapshot
    yields an error whose message is not "the requested preview does not
    exist". *)
Lemma never_saved_message_differs :
  ∃ props,
    resolve Up ∅ None (preview_of (js "never-saved"))
    = ([snapshot_request None (js "never-saved")], inr props)
    ∧ hasError props = Some true
    ∧ message props ≠ Some (js "the requested preview does not exist").
Proof.
  eexists. split; [vm_compute; reflexivity|]. split; [reflexivity|].
  vm_compute. discriminate.
Qed.

(** C3, as the code has it. A fetch rejected with any status other than 403
    (or none) yields the error props with the message "An error has occurred
    while connecting to S3. Please refresh the page to try again.", which
    differs from the message of the 403 case. *)
Theorem other_failure_yields_connection_error
    (respond : GetObjectRequest → JSError + GetObjectOutput)
    (bucket : option jsstring) (snapshotId : jsstring) (e : JSError) :
  respond (snapshot_request bucket snapshotId) = inl e →
  statusCode e ≠ Some 403%Z →
  run respond (getStaticProps bucket (preview_of snapshotId))
  = ([snapshot_request bucket snapshotId],
     inr (error_props
            (js "An error has occurred while connecting to S3. Please refresh the page to try again.")))
  ∧ js "An error has occurred while connecting to S3. Please refresh the page to try again."
    ≠ not_exist_message.
Proof.
  intros Hr He. split; [|vm_compute; discriminate].
  rewrite run_getStaticProps_preview.
  rewrite (run_fetch_preview_rejected _ _ _ _ Hr).
  rewrite decide_False by assumption. reflexivity.
Qed.

Lemma networking_error_yields_connection_error :
  (BlobStore_get (Down networking_error) ∅ (snapshot_request None (js "s1"))
   = inl networking_error
   ∧ statusCode networking_error ≠ Some 403%Z)
  ∧ (resolve (Down networking_error) ∅ None (preview_of (js "s1"))
     = ([snapshot_request None (js "s1")],
        inr (error_props
               (js "An error has occurred while connecting to S3. Please refresh the page to try again.")))
     ∧ js "An error has occurred while connecting to S3. Please refresh the page to try again."
       ≠ not_exist_message).
Proof.
  split; [split; [reflexivity|discriminate]|].
  apply (other_failure_yields_connection_error
           (BlobStore_get (Down networking_error) ∅) None (js "s1") networking_error);
    [reflexivity|discriminate].
Defined.

(** C3 as stated fails on the text of the message: a networking failure
    yields an error whose message is not "a connection error occurred, please
    retry". *)
Lemma networking_error_message_differs :
  ∃ props,
    resolve (Down networking_error) ∅ None (preview_of (js "s1"))
    = ([snapshot_request None (js "s1")], inr props)
    ∧ hasError props = Some true
    ∧ message props ≠ Some (js "a connection error occurred, please retry").
Proof.
  eexists. split; [vm_compute; reflexivity|]. split; [reflexivity|].
  vm_compute. discriminate.
Qed.

(** C4. Without the preview flag the result is the normal props, no request
    is made to the store, and the result is the same whatever the store holds
    and however it answers. *)
Theorem no_preview_is_normal_without_storage_access
    (bucket : option jsstring) (data : option PreviewData)
    (link link' : Link) (objects objects' : gmap jsstring jsstring) :
  getStaticProps bucket {| preview := false; previewData := data |}
  = Return {| isPreview := false; snapshotId := None; contents := None;
              hasError := None; message := None |}
  ∧ resolve link objects bucket {| preview := false; previewData := data |}
    = ([], inr normal_props)
  ∧ resolve link objects bucket {| preview := false; previewData := data |}
    = resolve link' objects' bucket {| preview := false; previewData := data |}.
Proof. repeat split. Qed.

(** C9. Whenever the guarded block of preview resolution throws, the props
    returned carry [isPreview: false], [hasError: true] and a message, and
    neither [snapshotId] nor [contents]; [Home] renders them as the error page
    showing that message. *)
Theorem failed_preview_renders_error_outside_preview
    (respond : GetObjectRequest → JSError + GetObjectOutput)
    (bucket : option jsstring) (requested : jsstring)
    (reqs : list GetObjectRequest) (e : JSError) :
  run respond (fetch_preview bucket requested) = (reqs, inl e) →
  ∃ props text,
    run respond (getStaticProps bucket (preview_of requested)) = (reqs, inr props)
    ∧ isPreview props = false
    ∧ hasError props = Some true
    ∧ message props = Some text
    ∧ snapshotId props = None
    ∧ contents props = None
    ∧ Home_page props = {| previewBar := true; main := ErrorPage (Some text) |}.
Proof.
  intros Hthrow. rewrite run_getStaticProps_preview, Hthrow.
  eexists _, _. repeat split.
Qed.

Lemma failed_preview_of_missing_snapshot :
  run (BlobStore_get Up ∅) (fetch_preview None (js "never-saved"))
  = ([snapshot_request None (js "never-saved")],
     inl (ServiceError (js "AccessDenied") (Some 403%Z)))
  ∧ ∃ props text,
      run (BlobStore_get Up ∅) (getStaticProps None (preview_of (js "never-saved")))
      = ([snapshot_request None (js "never-saved")], inr props)
      ∧ isPreview props = false
      ∧ hasError props = Some true
      ∧ message props = Some text
      ∧ snapshotId props = None
      ∧ contents props = None
      ∧ Home_page props = {| previewBar := true; main := ErrorPage (Some text) |}.
Proof.
  split; [reflexivity|].
  apply (failed_preview_renders_error_outside_preview (BlobStore_get Up ∅) None
           (js "never-saved") _ (ServiceError (js "AccessDenied") (Some 403%Z))).
  reflexivity.
Defined.

(** C10. When the fetch succeeds and the body is not valid JSON, resolution
    still returns props: the [SyntaxError] is caught, it carries no status
    code, and the outcome is the connection error, not the preview and not
    the not-exists error. *)
Theorem invalid_json_yields_connection_error
    (respond : GetObjectRequest → JSError + GetObjectOutput)
    (bucket : option jsstring) (snapshotId text : jsstring) :
  respond (snapshot_request bucket snapshotId) = inr {| Body := Some text |} →
  JSON.parse text = None →
  run respond (fetch_preview bucket snapshotId)
  = ([snapshot_request bucket snapshotId], inl SyntaxError)
  ∧ statusCode SyntaxError = None
  ∧ run respond (getStaticProps bucket (preview_of snapshotId))
    = ([snapshot_request bucket snapshotId],
       inr (error_props
              (js "An error has occurred while connecting to S3. Please refresh the page to try again."))).
Proof.
  intros Hr Hp.
  assert (run respond (fetch_preview bucket snapshotId)
          = ([snapshot_request bucket snapshotId], inl SyntaxError)) as Hthrow
    by (rewrite (run_fetch_preview_body _ _ _ _ Hr), Hp; reflexivity).
  split; [exact Hthrow|]. split; [reflexivity|].
  rewrite run_getStaticProps_preview, Hthrow. reflexivity.
Qed.

Lemma broken_snapshot_yields_connection_error :
  (BlobStore_get Up broken_store (snapshot_request None (js "s1"))
   = inr {| Body := Some (js "{oops") |}
   ∧ JSON.parse (js "{oops") = None)
  ∧ run (BlobStore_get Up broken_store) (fetch_preview None (js "s1"))
    = ([snapshot_request None (js "s1")], inl SyntaxError)
  ∧ statusCode SyntaxError = None
  ∧ run (BlobStore_get Up broken_store) (getStaticProps None (preview_of (js "s1")))
    = ([snapshot_request None (js "s1")],
       inr (error_props
              (js "An error has occurred while connecting to S3. Please refresh the page to try again."))).
Proof.
  split; [split; reflexivity|].
  apply (invalid_json_yields_connection_error (BlobStore_get Up broken_store)
           None (js "s1") (js "{oops")); reflexivity.
Defined.

(** ** The share workflow *)

Section share_guard.

Lemma step_guard_holds (c c' : Client) (ev : Event) (reqs : list Request) :
  guard_holds c → step c ev = Some (c', reqs) →
  guard_holds c'
  ∧ length reqs
    = if negb (isSharingView (home c)) && isSharingView (home c') then 1%nat else 0%nat.
Proof.
  destruct c as [[id edit guard view err] n]. unfold guard_holds.
  cbn [home in_flight hasSaveRequest isSharingView]. intros [<- Hn].
  destruct ev as [|els|fetched| |]; cbn [step home in_flight].
  - intros [= <- <-]. destruct guard; cbn; auto.
  - unfold share. cbn [hasSaveRequest].
    destruct guard; intros [= <- <-]; cbn; split; auto; split; auto; lia.
  - destruct n as [|n]; [discriminate|]. intros [= <- <-].
    destruct guard; [|cbn in Hn; lia].
    unfold save_settled.
    destruct (read_reply fetched) as [[r|e]|]; cbn; split; auto; split; auto; lia.
  - intros [= <- <-]. destruct guard; cbn; auto.
  - intros [= <- <-]. destruct guard; cbn; auto.
Qed.

Lemma exec_guard_holds (evs : list Event) (c c' : Client) (reqs : list Request) :
  guard_holds c → exec c evs = Some (c', reqs) →
  guard_holds c' ∧ length reqs = entries_into_sharing c evs.
Proof.
  revert c reqs. induction evs as [|ev evs IH]; intros c reqs Hc.
  - intros [= <- <-]. auto.
  - cbn [exec entries_into_sharing].
    destruct (step c ev) as [[c1 reqs1]|] eqn:Hstep; [|discriminate].
    cbn [mbind option_bind].
    destruct (exec c1 evs) as [[c2 reqs2]|] eqn:Hexec; [|discriminate].
    intros [= <- <-].
    destruct (step_guard_holds _ _ _ _ Hc Hstep) as [Hc1 Hlen1].
    destruct (IH _ _ Hc1 Hexec) as [Hc2 Hlen2].
    split; [assumption|]. rewrite length_app. congruence.
Qed.

Lemma start_guard_holds : guard_holds start.
Proof. split; [reflexivity|cbn; lia]. Qed.

(** X1. Whenever the promise chain of a save settles (the fetch rejects, the
    response is ok, or it is not ok and its body can be read), [finally] runs:
    the guard is released, the sharing view is left, and the next [share] is
    accepted. *)
Theorem save_settled_releases (fetched : Outcome Response)
    (reply : Outcome SaveReply) (st : HomeState) (els : list Element) :
  read_reply fetched = Some reply →
  hasSaveRequest (save_settled fetched st) = false
  ∧ isSharingView (save_settled fetched st) = false
  ∧ share els (save_settled fetched st)
    = (setSharing true (save_settled fetched st), [save_request els]).
Proof.
  intros Hr. unfold save_settled, share. rewrite Hr.
  destruct reply; repeat split.
Qed.

Lemma refusal_with_message_releases :
  read_reply (refused_with (js "Bad Request")) = Some (Rejected (Error (js "Bad Request")))
  ∧ hasSaveRequest (save_settled (refused_with (js "Bad Request")) (setSharing true initial))
    = false
  ∧ isSharingView (save_settled (refused_with (js "Bad Request")) (setSharing true initial))
    = false
  ∧ share title_region
      (save_settled (refused_with (js "Bad Request")) (setSharing true initial))
    = (setSharing true
         (save_settled (refused_with (js "Bad Request")) (setSharing true initial)),
       [save_request title_region]).
Proof.
  split; [reflexivity|].
  apply (save_settled_releases (refused_with (js "Bad Request"))
           (Rejected (Error (js "Bad Request"))) (setSharing true initial) title_region).
  reflexivity.
Defined.

End share_guard.

(** C5. After every sequence of events at most one save request is in
    flight, the requests sent are as many as the entries into sharing, and
    while a request is in flight [share] sends nothing and changes nothing. *)
Theorem at_most_one_save_in_flight (evs : list Event) (c : Client)
    (reqs : list Request) :
  exec start evs = Some (c, reqs) →
  (in_flight c ≤ 1)%nat
  ∧ length reqs = entries_into_sharing start evs
  ∧ ((0 < in_flight c)%nat → ∀ els, share els (home c) = (home c, [])).
Proof.
  intros Hexec.
  destruct (exec_guard_holds _ _ _ _ start_guard_holds Hexec) as [[_ Hn] Hlen].
  split; [destruct (hasSaveRequest (home c)); lia|].
  split; [assumption|].
  intros Hpos els. unfold share.
  destruct (hasSaveRequest (home c)); [reflexivity|lia].
Qed.

Lemma second_share_sends_nothing :
  exec start [ToggleEdit; Share title_region; Share title_region]
  = Some ({| home := {| currentSnapshotId := None; isEdit := true;
                        hasSaveRequest := true; isSharingView := true;
                        currentError := None |};
             in_flight := 1 |},
          [save_request title_region])
  ∧ (1 ≤ 1)%nat
  ∧ length [save_request title_region]
    = entries_into_sharing start [ToggleEdit; Share title_region; Share title_region]
  ∧ ((0 < 1)%nat →
     ∀ els, share els {| currentSnapshotId := None; isEdit := true;
                         hasSaveRequest := true; isSharingView := true;
                         currentError := None |}
            = ({| currentSnapshotId := None; isEdit := true;
                  hasSaveRequest := true; isSharingView := true;
                  currentError := None |}, [])).
Proof.
  split; [reflexivity|].
  apply (at_most_one_save_in_flight
           [ToggleEdit; Share title_region; Share title_region]
           {| home := {| currentSnapshotId := None; isEdit := true;
                         hasSaveRequest := true; isSharingView := true;
                         currentError := None |};
              in_flight := 1 |}
           [save_request title_region]).
  reflexivity.
Defined.

(** C6, at the input where the code departs from it. The save endpoint
    answers with an error status and reading the body fails: the promise the
    first [then] returns never settles, [finally] does not run, the guard
    stays held with no request in flight, no error is shown, and [share] is
    refused from then on. *)
Theorem guard_held_after_unreadable_refusal :
  ∃ c,
    exec start [ToggleEdit; Share title_region; SaveSettled refused_unreadable]
    = Some (c, [save_request title_region])
    ∧ in_flight c = 0%nat
    ∧ hasSaveRequest (home c) = true
    ∧ currentError (home c) = None
    ∧ ∀ els, share els (home c) = (home c, []).
Proof. eexists. split; [reflexivity|]. repeat split. Qed.

(** C7 as stated fails: after a save made in edit mode succeeds, closing the
    link dialog leaves the session in edit mode, not in [Viewing]. *)
Lemma link_dismissed_in_edit_mode_is_editing :
  ∃ c reqs,
    exec start [ToggleEdit; Share title_region; SaveSettled (saved_as (js "s1"))]
    = Some (c, reqs)
    ∧ session_state (home c) = ShowingLink (js "s1")
    ∧ session_state (clearSnapshot (home c)) = Editing
    ∧ session_state (clearSnapshot (home c)) ≠ Viewing.
Proof.
  eexists _, _. split; [reflexivity|]. repeat split. discriminate.
Qed.

(** C7, as the code has it. Closing the link dialog clears the snapshot
    identifier and closing the error dialog clears the error; the edit flag
    is kept.  With no save pending and no other dialog open the session is
    then [Editing] when edit mode is on and [Viewing] when it is off, whatever
    led to the dialog. *)
Theorem dismissal_returns_behind_dialog (st : HomeState) :
  isSharingView st = false →
  isEdit (clearSnapshot st) = isEdit st
  ∧ isEdit (onClearError st) = isEdit st
  ∧ (∀ id, session_state st = ShowingLink id →
       session_state (clearSnapshot st) = if isEdit st then Editing else Viewing)
  ∧ (∀ e, session_state st = ShowingError e → shown_link st = None →
       session_state (onClearError st) = if isEdit st then Editing else Viewing).
Proof.
  intros Hview. destruct st as [id edit guard view err]. cbn in Hview. subst view.
  split; [reflexivity|]. split; [reflexivity|]. split.
  - intros i. unfold session_state. cbn. destruct err; [discriminate|]. reflexivity.
  - intros e _. unfold session_state, shown_link. cbn.
    intros Hlink. rewrite Hlink. reflexivity.
Qed.

Lemma dismissal_after_save_in_edit_mode :
  isSharingView {| currentSnapshotId := Some (js "s1"); isEdit := true;
                   hasSaveRequest := false; isSharingView := false;
                   currentError := None |} = false
  ∧ session_state {| currentSnapshotId := Some (js "s1"); isEdit := true;
                     hasSaveRequest := false; isSharingView := false;
                     currentError := None |} = ShowingLink (js "s1")
  ∧ session_state
      (clearSnapshot {| currentSnapshotId := Some (js "s1"); isEdit := true;
                        hasSaveRequest := false; isSharingView := false;
                        currentError := None |}) = Editing.
Proof.
  split; [reflexivity|]. split; [reflexivity|].
  exact (proj1 (proj2 (proj2
           (dismissal_returns_behind_dialog
              {| currentSnapshotId := Some (js "s1"); isEdit := true;
                 hasSaveRequest := false; isSharingView := false;
                 currentError := None |} eq_refl)))
           (js "s1") eq_refl).
Defined.

(** C8. An accepted [share] turns the matched elements, in document order,
    into edits [{ id, innerText }] and hands [fetch] a single POST to
    [/api/save] whose body is their serialisation: a JSON array holding, for
    each element in order, the object of its parent's [id] and its
    [innerText]. *)
Theorem share_posts_every_region (els : list Element) (st : HomeState) :
  hasSaveRequest st = false →
  share els st
  = (setSharing true st,
     [{| url := js "/api/save"; method := js "POST";
         body := JSON_stringify
                   ((λ el, FieldEdit.mk (parentNode_id el) (element_innerText el))
                      <$> els);
         headers := [(js "content-type", js "application/json")] |}])
  ∧ JSON.parse
      (JSON_stringify
         ((λ el, FieldEdit.mk (parentNode_id el) (element_innerText el)) <$> els))
    = Some (JArray
              ((λ el, JObject (<[js "innerText" := JString (element_innerText el)]>
                               (<[js "id" := JString (parentNode_id el)]> ∅)))
                 <$> els)).
Proof.
  intros Hguard. unfold share. rewrite Hguard. split; [reflexivity|].
  rewrite parse_JSON_stringify. unfold edits_value.
  rewrite <- list_fmap_compose. reflexivity.
Qed.

Lemma share_posts_title_region :
  hasSaveRequest initial = false
  ∧ share title_region initial
    = (setSharing true initial,
       [{| url := js "/api/save"; method := js "POST";
           body := JSON_stringify title_hello;
           headers := [(js "content-type", js "application/json")] |}])
  ∧ JSON.parse (JSON_stringify title_hello)
    = Some (JArray [JObject (<[js "innerText" := JString (js "Hello")]>
                             (<[js "id" := JString (js "title")]> ∅))]).
Proof.
  split; [reflexivity|].
  apply (share_posts_every_region title_region initial). reflexivity.
Defined.

(** ** More on preview resolution *)

(** Runs the guarded block against the answer named by the hypothesis. *)
Ltac run_preview :=
  rewrite run_getStaticProps_preview;
  unfold fetch_preview, s3_getObject; cbn [bind run];
  match goal with
  | |- context [{| Bucket := ?b; Key := ?i ++ js ".json" |}] =>
      fold (snapshot_request b i)
  end.

(** X3. In preview mode, whatever the store answers, resolution makes
    exactly one request, for the key of the snapshot, and returns props: the
    preview of what the body parses to, the not-exists error for a rejection
    with status 403, and the connection error for any other rejection, for an
    answer without a body and for a body that is not JSON. *)
Theorem preview_resolution_table
    (respond : GetObjectRequest → JSError + GetObjectOutput)
    (bucket : option jsstring) (requested : jsstring) :
  run respond (getStaticProps bucket (preview_of requested))
  = ([{| Bucket := bucket; Key := requested ++ js ".json" |}],
     inr match respond {| Bucket := bucket; Key := requested ++ js ".json" |} with
         | inl e =>
             error_props (if decide (statusCode e = Some 403%Z)
                          then not_exist_message else connection_message)
         | inr {| Body := None |} => error_props connection_message
         | inr {| Body := Some text |} =>
             match JSON.parse text with
             | Some contents => preview_props requested contents
             | None => error_props connection_message
             end
         end).
Proof.
  run_preview. unfold snapshot_request.
  destruct (respond _) as [e|[[text|]]]; [reflexivity| |reflexivity].
  unfold Body_toString, JSON_parse. cbn [Body bind].
  destruct (JSON.parse text); reflexivity.
Qed.

(** X4. [getStaticProps] throws in one case only: preview mode without
    preview data, where the [TypeError] of the destructuring escapes before
    any request is made.  In every other case it returns props after at most
    one request. *)
Theorem getStaticProps_throws_only_without_preview_data
    (respond : GetObjectRequest → JSError + GetObjectOutput)
    (bucket : option jsstring) (ctx : Context) :
  match preview ctx, previewData ctx with
  | true, None =>
      run respond (getStaticProps bucket ctx) = ([], inl TypeError)
  | true, Some data =>
      ∃ props,
        run respond (getStaticProps bucket ctx)
        = ([snapshot_request bucket (previewData_snapshotId data)], inr props)
  | false, _ =>
      run respond (getStaticProps bucket ctx) = ([], inr normal_props)
  end.
Proof.
  destruct ctx as [[|] [[requested]|]]; cbn [preview previewData];
    try reflexivity.
  change {| preview := true; previewData := Some _ |} with (preview_of requested).
  run_preview. cbn [previewData_snapshotId].
  destruct (respond _) as [e|[[text|]]]; [eexists; reflexivity| |eexists; reflexivity].
  unfold Body_toString, JSON_parse. cbn [Body bind].
  destruct (JSON.parse text); eexists; reflexivity.
Qed.

(** X5. Resolution reads the store through its one request only: two stores
    that answer the request for the snapshot alike give the same requests and
    the same props, whatever else they hold. *)
Theorem resolution_depends_on_own_object
    (respond respond' : GetObjectRequest → JSError + GetObjectOutput)
    (bucket : option jsstring) (requested : jsstring) :
  respond (snapshot_request bucket requested)
  = respond' (snapshot_request bucket requested) →
  run respond (getStaticProps bucket (preview_of requested))
  = run respond' (getStaticProps bucket (preview_of requested)).
Proof.
  intros Hsame. rewrite !run_getStaticProps_preview.
  unfold fetch_preview, s3_getObject. cbn [bind run].
  fold (snapshot_request bucket requested). rewrite Hsame.
  destruct (respond' _) as [e|[[text|]]]; [reflexivity| |reflexivity].
  unfold Body_toString, JSON_parse. cbn [Body bind].
  destruct (JSON.parse text); reflexivity.
Qed.

Lemma resolution_ignores_other_objects :
  BlobStore_get Up broken_store (snapshot_request None (js "s2"))
  = BlobStore_get Up ∅ (snapshot_request None (js "s2"))
  ∧ run (BlobStore_get Up broken_store) (getStaticProps None (preview_of (js "s2")))
    = run (BlobStore_get Up ∅) (getStaticProps None (preview_of (js "s2"))).
Proof.
  split; [reflexivity|].
  apply (resolution_depends_on_own_object (BlobStore_get Up broken_store)
           (BlobStore_get Up ∅) None (js "s2")).
  reflexivity.
Defined.

(** X6. The key of a snapshot determines the snapshot: two identifiers are
    never looked up under the same key, in whichever buckets. *)
Theorem snapshot_key_determines_id (bucket bucket' : option jsstring)
    (requested requested' : jsstring) :
  Key (snapshot_request bucket requested) = Key (snapshot_request bucket' requested') →
  requested = requested'.
Proof. unfold snapshot_request. cbn [Key]. apply app_inv_tail. Qed.

Lemma snapshot_key_of_s1 :
  Key (snapshot_request None (js "s1")) = Key (snapshot_request (Some (js "b")) (js "s1"))
  ∧ js "s1" = js "s1".
Proof.
  split; [reflexivity|].
  apply (snapshot_key_determines_id None (Some (js "b")) (js "s1") (js "s1")).
  reflexivity.
Defined.

(** X7. With preview data present, the page shows the "Preview Mode" bar
    (the way out of preview mode) exactly when the preview flag is on, whether
    the snapshot could be fetched or not; without the flag it shows the
    content with no edits. *)
Theorem preview_bar_follows_preview_flag
    (respond : GetObjectRequest → JSError + GetObjectOutput)
    (bucket : option jsstring) (flag : bool) (data : PreviewData) :
  ∃ reqs props,
    run respond (getStaticProps bucket {| preview := flag; previewData := Some data |})
    = (reqs, inr props)
    ∧ previewBar (Home_page props) = flag
    ∧ (if flag then True
       else main (Home_page props) = Content (Some (JArray []))).
Proof.
  destruct data as [requested]. destruct flag.
  - change {| preview := true; previewData := Some _ |} with (preview_of requested).
    run_preview.
    destruct (respond _) as [e|[[text|]]];
      [eexists _, _; repeat split| |eexists _, _; repeat split].
    unfold Body_toString, JSON_parse. cbn [Body bind].
    destruct (JSON.parse text); eexists _, _; repeat split.
  - eexists _, _. repeat split.
Qed.

(** X8. From the page to the preview: when the store holds, under the key of
    a snapshot, the body an accepted [share] posted, resolving that snapshot
    yields the preview whose contents are the page's regions, in document
    order, each as the object of its parent's [id] and its [innerText]. *)
Theorem shared_page_is_previewed
    (respond : GetObjectRequest → JSError + GetObjectOutput)
    (bucket : option jsstring) (requested : jsstring)
    (els : list Element) (st st' : HomeState) (req : Request) :
  share els st = (st', [req]) →
  respond (snapshot_request bucket requested) = inr {| Body := Some (body req) |} →
  run respond (getStaticProps bucket (preview_of requested))
  = ([snapshot_request bucket requested],
     inr (preview_props requested
            (JArray
               ((λ el, JObject (<[js "innerText" := JString (element_innerText el)]>
                                (<[js "id" := JString (parentNode_id el)]> ∅)))
                  <$> els)))).
Proof.
  unfold share. destruct (hasSaveRequest st); [discriminate|].
  intros [= <- <-] Hr.
  apply (resolve_parsed_body _ _ _ _ _ Hr). cbn [body save_request].
  rewrite parse_JSON_stringify. unfold edits_value, persistContents.
  rewrite <- list_fmap_compose. reflexivity.
Qed.

Lemma shared_title_is_previewed :
  (share title_region initial = (setSharing true initial, [save_request title_region])
   ∧ BlobStore_get Up (<[js "s1.json" := body (save_request title_region)]> ∅)
       (snapshot_request None (js "s1"))
     = inr {| Body := Some (body (save_request title_region)) |})
  ∧ run (BlobStore_get Up (<[js "s1.json" := body (save_request title_region)]> ∅))
      (getStaticProps None (preview_of (js "s1")))
    = ([snapshot_request None (js "s1")],
       inr (preview_props (js "s1")
              (JArray [JObject (<[js "innerText" := JString (js "Hello")]>
                                (<[js "id" := JString (js "title")]> ∅))]))).
Proof.
  split; [split; reflexivity|].
  apply (shared_page_is_previewed
           (BlobStore_get Up (<[js "s1.json" := body (save_request title_region)]> ∅))
           None (js "s1") title_region initial (setSharing true initial)
           (save_request title_region)); reflexivity.
Defined.

(** ** More on the share workflow *)

Section session_runs.

(** What the promise chain leaves untouched: the edit flag. *)
Lemma save_settled_isEdit (fetched : Outcome Response) (st : HomeState) :
  isEdit (save_settled fetched st) = isEdit st.
Proof.
  unfold save_settled. destruct (read_reply fetched) as [[r|e]|]; reflexivity.
Qed.

Lemma step_isEdit (c c' : Client) (ev : Event) (reqs : list Request) :
  step c ev = Some (c', reqs) →
  isEdit (home c') = xorb (isEdit (home c)) (Nat.odd (toggles [ev])).
Proof.
  destruct ev as [|els|fetched| |]; cbn [step toggles].
  - intros [= <- <-]. cbn. destruct (isEdit (home c)); reflexivity.
  - unfold share. destruct (hasSaveRequest (home c)); intros [= <- <-];
      cbn; rewrite xorb_false_r; reflexivity.
  - destruct (in_flight c); [discriminate|]. intros [= <- <-].
    cbn [home]. rewrite save_settled_isEdit, xorb_false_r. reflexivity.
  - intros [= <- <-]. cbn. rewrite xorb_false_r. reflexivity.
  - intros [= <- <-]. cbn. rewrite xorb_false_r. reflexivity.
Qed.

Lemma toggles_cons (ev : Event) (evs : list Event) :
  toggles (ev :: evs) = (toggles [ev] + toggles evs)%nat.
Proof. destruct ev; reflexivity. Qed.


End session_runs.

(** X9. Once the guard is held with no request in flight, it is held for
    good: whatever the user does next, no save request is ever sent again and
    the guard is never released. *)
Theorem held_guard_without_request_is_permanent (evs : list Event)
    (c c' : Client) (reqs : list Request) :
  hasSaveRequest (home c) = true → in_flight c = 0%nat →
  exec c evs = Some (c', reqs) →
  reqs = [] ∧ hasSaveRequest (home c') = true ∧ in_flight c' = 0%nat.
Proof.
  revert c reqs. induction evs as [|ev evs IH]; intros c reqs Hguard Hnone.
  - intros [= <- <-]. auto.
  - cbn [exec].
    destruct (step c ev) as [[c1 reqs1]|] eqn:Hstep; [|discriminate].
    cbn [mbind option_bind].
    destruct (exec c1 evs) as [[c2 reqs2]|] eqn:Hexec; [|discriminate].
    intros [= <- <-].
    assert (reqs1 = [] ∧ hasSaveRequest (home c1) = true ∧ in_flight c1 = 0%nat)
      as (-> & Hguard1 & Hnone1).
    { destruct ev as [|els|fetched| |]; cbn [step] in Hstep.
      - injection Hstep as <- <-. cbn. auto.
      - unfold share in Hstep. rewrite Hguard in Hstep.
        injection Hstep as <- <-. cbn. rewrite Nat.add_0_r. auto.
      - rewrite Hnone in Hstep. discriminate.
      - injection Hstep as <- <-. cbn. auto.
      - injection Hstep as <- <-. cbn. auto. }
    apply (IH _ _ Hguard1 Hnone1 Hexec).
Qed.

Lemma stuck_client_never_saves_again :
  (hasSaveRequest (home stuck) = true ∧ in_flight stuck = 0%nat
   ∧ exec stuck [Share title_region; ExitError; ToggleEdit; Share title_region]
     = Some ({| home := setSharing true initial; in_flight := 0 |}, []))
  ∧ ([] : list Request) = []
  ∧ hasSaveRequest (setSharing true initial) = true
  ∧ 0%nat = 0%nat.
Proof.
  split; [repeat split|].
  apply (held_guard_without_request_is_permanent
           [Share title_region; ExitError; ToggleEdit; Share title_region]
           stuck {| home := setSharing true initial; in_flight := 0 |} []);
    reflexivity.
Defined.

(** X10. In every state the session can reach, the guard and the sharing
    flag the toolbar shows agree; and whenever the toolbar shows no save in
    progress, nothing is in flight and [share] is accepted: it sends one save
    request for the page. *)
Theorem share_accepted_unless_toolbar_shows_sharing (evs : list Event)
    (c : Client) (reqs : list Request) :
  exec start evs = Some (c, reqs) →
  hasSaveRequest (home c) = isSharingView (home c)
  ∧ (Home_controls (home c) = SnapshotControls false →
     in_flight c = 0%nat
     ∧ ∀ els, share els (home c) = (setSharing true (home c), [save_request els])).
Proof.
  intros Hexec.
  destruct (exec_guard_holds _ _ _ _ start_guard_holds Hexec) as [[Hsame Hn] _].
  split; [exact Hsame|]. unfold Home_controls, share.
  destruct (isEdit (home c)); [|discriminate]. intros [= Hview].
  rewrite Hsame, Hview in *. split; [lia|reflexivity].
Qed.

Lemma share_accepted_after_failed_save :
  exec start [ToggleEdit; Share title_region; SaveSettled (Rejected TypeError)]
  = Some ({| home := setError (Some TypeError) (toggleEdit initial); in_flight := 0 |},
          [save_request title_region])
  ∧ hasSaveRequest (setError (Some TypeError) (toggleEdit initial))
    = isSharingView (setError (Some TypeError) (toggleEdit initial))
  ∧ (Home_controls (setError (Some TypeError) (toggleEdit initial))
     = SnapshotControls false →
     0%nat = 0%nat
     ∧ ∀ els, share els (setError (Some TypeError) (toggleEdit initial))
              = (setSharing true (setError (Some TypeError) (toggleEdit initial)),
                 [save_request els])).
Proof.
  split; [reflexivity|].
  apply (share_accepted_unless_toolbar_shows_sharing
           [ToggleEdit; Share title_region; SaveSettled (Rejected TypeError)]
           {| home := setError (Some TypeError) (toggleEdit initial); in_flight := 0 |}
           [save_request title_region]).
  reflexivity.
Defined.

(** X11. Edit mode is changed by toggling alone: after any run, edit mode is
    on exactly when it was on before and the toggles were even in number, or
    off before and they were odd.  Sharing, the result of a save and the exit
    of a dialog never enter or leave edit mode. *)
Theorem edit_mode_counts_toggles (evs : list Event) (c c' : Client)
    (reqs : list Request) :
  exec c evs = Some (c', reqs) →
  isEdit (home c') = xorb (isEdit (home c)) (Nat.odd (toggles evs)).
Proof.
  revert c reqs. induction evs as [|ev evs IH]; intros c reqs.
  - intros [= <- <-]. cbn. rewrite xorb_false_r. reflexivity.
  - cbn [exec].
    destruct (step c ev) as [[c1 reqs1]|] eqn:Hstep; [|discriminate].
    cbn [mbind option_bind].
    destruct (exec c1 evs) as [[c2 reqs2]|] eqn:Hexec; [|discriminate].
    intros [= <- <-].
    rewrite (toggles_cons ev evs), Nat.odd_add.
    rewrite (IH _ _ Hexec), (step_isEdit _ _ _ _ Hstep), xorb_assoc. reflexivity.
Qed.

Lemma edit_mode_after_save_and_exit :
  exec start [ToggleEdit; Share title_region; SaveSettled (saved_as (js "s1"));
              ExitShareLink]
  = Some ({| home := toggleEdit initial; in_flight := 0 |}, [save_request title_region])
  ∧ isEdit (toggleEdit initial)
    = xorb (isEdit initial)
        (Nat.odd (toggles [ToggleEdit; Share title_region;
                           SaveSettled (saved_as (js "s1")); ExitShareLink])).
Proof.
  split; [reflexivity|].
  apply (edit_mode_counts_toggles
           [ToggleEdit; Share title_region; SaveSettled (saved_as (js "s1"));
            ExitShareLink]
           start {| home := toggleEdit initial; in_flight := 0 |}
           [save_request title_region]).
  reflexivity.
Defined.



(** X13. How a save leaves the sharing state.  A rejected fetch, an ok
    response whose body is not the reply, and a refusal with a readable body
    end in the error dialog, the last one showing the body as the error's
    message; an ok response ends in the link dialog for the identifier it
    carries, except that an empty identifier opens no dialog at all and the
    session falls back to editing or viewing. *)
Theorem save_result_leaves_sharing (st : HomeState) :
  session_state st = Sharing →
  (∀ e, session_state (save_settled (Rejected e) st) = ShowingError e)
  ∧ (∀ res e, ok res = true → json res = Rejected e →
       session_state (save_settled (Fulfilled res) st) = ShowingError e)
  ∧ (∀ res body, ok res = false → text res = Fulfilled body →
       session_state (save_settled (Fulfilled res) st) = ShowingError (Error body))
  ∧ (∀ res reply, ok res = true → json res = Fulfilled reply →
       session_state (save_settled (Fulfilled res) st)
       = match reply_snapshotId reply with
         | [] => if isEdit st then Editing else Viewing
         | c :: s => ShowingLink (c :: s)
         end).
Proof.
  destruct st as [id edit guard view err]. unfold session_state, shown_link.
  cbn [currentError currentSnapshotId isSharingView isEdit].
  destruct err as [e|]; [discriminate|]. intros _.
  repeat split.
  - intros res e Hok Hjson. unfold save_settled, read_reply. rewrite Hok, Hjson.
    reflexivity.
  - intros res body Hok Htext. unfold save_settled, read_reply. rewrite Hok, Htext.
    reflexivity.
  - intros res reply Hok Hjson. unfold save_settled, read_reply. rewrite Hok, Hjson.
    cbn. destruct (reply_snapshotId reply); reflexivity.
Qed.

Lemma save_results_of_first_share :
  session_state (setSharing true (toggleEdit initial)) = Sharing
  ∧ (∀ e, session_state (save_settled (Rejected e) (setSharing true (toggleEdit initial)))
          = ShowingError e)
  ∧ session_state (save_settled (refused_with (js "Bad Request"))
                     (setSharing true (toggleEdit initial)))
    = ShowingError (Error (js "Bad Request"))
  ∧ session_state (save_settled (saved_as (js "s1")) (setSharing true (toggleEdit initial)))
    = ShowingLink (js "s1")
  ∧ session_state (save_settled (saved_as []) (setSharing true (toggleEdit initial)))
    = Editing.
Proof.
  split; [reflexivity|].
  destruct (save_result_leaves_sharing (setSharing true (toggleEdit initial)) eq_refl)
    as (Hrejected & _ & Hrefused & Hsaved).
  split; [exact Hrejected|]. split; [|split].
  - exact (Hrefused {| ok := false; json := Rejected SyntaxError;
                        text := Fulfilled (js "Bad Request") |}
             (js "Bad Request") eq_refl eq_refl).
  - exact (Hsaved {| ok := true; json := Fulfilled {| reply_snapshotId := js "s1" |};
                     text := Rejected TypeError |}
             {| reply_snapshotId := js "s1" |} eq_refl eq_refl).
  - exact (Hsaved {| ok := true; json := Fulfilled {| reply_snapshotId := [] |};
                     text := Rejected TypeError |}
             {| reply_snapshotId := [] |} eq_refl eq_refl).
Defined.

(** ** More on what [share] posts *)

Section posted_body.

Lemma FieldEdit_value_inj (e e' : FieldEdit.t) :
  FieldEdit.value e = FieldEdit.value e' → e = e'.
Proof.
  destruct e as [i t], e' as [i' t']. unfold FieldEdit.value.
  cbn [FieldEdit.id FieldEdit.innerText]. intros Hm.
  assert (Hi := f_equal (λ v, match v with
                              | JObject m => m !! js "id"
                              | _ => None
                              end) Hm).
  assert (Ht := f_equal (λ v, match v with
                              | JObject m => m !! js "innerText"
                              | _ => None
                              end) Hm).
  vm_compute in Hi, Ht. congruence.
Qed.

Lemma JSON_stringify_inj (edits edits' : list FieldEdit.t) :
  JSON_stringify edits = JSON_stringify edits' → edits = edits'.
Proof.
  intros Hbody. pose proof (parse_JSON_stringify edits) as Hp.
  rewrite Hbody, parse_JSON_stringify in Hp.
  assert (FieldEdit.value <$> edits' = FieldEdit.value <$> edits) as Hvalues
    by (unfold edits_value in Hp; congruence).
  symmetry. revert Hvalues. apply list_fmap_eq_inj.
  intros e e'. apply FieldEdit_value_inj.
Qed.

End posted_body.

(** X14. The save request tells the pages apart: two pages give [share] the
    same request only if they hold the same regions, with the same parent ids
    and the same texts, in the same order.  Nothing of a region's id or text
    is lost or merged in the body posted. *)
Theorem save_request_determines_regions (els els' : list Element) :
  save_request els = save_request els' → els = els'.
Proof.
  intros Hbody. apply (f_equal body) in Hbody. cbn [body save_request] in Hbody.
  apply JSON_stringify_inj in Hbody.
  revert Hbody. unfold persistContents. apply list_fmap_eq_inj.
  intros [i t] [i' t']. cbn [parentNode_id element_innerText]. congruence.
Qed.

Lemma save_request_of_title_region :
  save_request title_region
  = save_request [{| parentNode_id := js "title"; element_innerText := js "Hello" |}]
  ∧ title_region = [{| parentNode_id := js "title"; element_innerText := js "Hello" |}].
Proof.
  split; [reflexivity|].
  apply (save_request_determines_regions title_region
           [{| parentNode_id := js "title"; element_innerText := js "Hello" |}]).
  reflexivity.
Defined.

(** ** The regions of the page *)

(** X15. [Content] hands every region the same edits and the edit flag of the
    page, and its nineteen regions carry fifteen ids only: [title] is the id
    of two regions and [explanation-2] of four, so the id of an edit does not
    single out one region of the page. *)
Theorem Content_region_ids_repeat (isEdit : bool) (edits : option JSValue) :
  Forall (λ region, isActive region = isEdit ∧ region_edits region = edits)
    (Content_regions isEdit edits)
  ∧ length (Content_regions isEdit edits) = 19%nat
  ∧ length (remove_dups (region_id <$> Content_regions isEdit edits)) = 15%nat
  ∧ length (filter (λ region, region_id region = js "title")
              (Content_regions isEdit edits)) = 2%nat
  ∧ length (filter (λ region, region_id region = js "explanation-2")
              (Content_regions isEdit edits)) = 4%nat.
Proof.
  split; [repeat constructor|]. repeat split; vm_compute; reflexivity.
Qed.
